(** * devices/timer.c: tick counter, sleep queue, wake-up scan and busy-wait
      calibration of the Pintos timer, as a shallow embedding.

    Kernel state is threaded explicitly through every operation; a call
    either returns, stops the kernel (ASSERT / PANIC), suspends its caller
    inside [lock_acquire], or is still running when the fuel of an unbounded
    loop is used up. *)

From Stdlib Require Import ZArith Zbitwise List Bool Lia Arith Permutation.
From Equations Require Import Equations.
Import ListNotations.

Local Open Scope Z_scope.

(** ** Machine integers *)

Module Int.

Definition INT64_MIN : Z := - 2 ^ 63.
Definition INT64_MAX : Z := 2 ^ 63 - 1.

Definition in_int64 (z : Z) : Prop := INT64_MIN <= z <= INT64_MAX.

(** Two's complement reduction of an integer to 64 signed bits. *)
Definition wrap64 (z : Z) : Z := (z + 2 ^ 63) mod 2 ^ 64 - 2 ^ 63.

(** Reduction to 32 unsigned bits ([unsigned]). *)
Definition wrapu32 (z : Z) : Z := z mod 2 ^ 32.

Definition add64 (a b : Z) : Z := wrap64 (a + b).
Definition sub64 (a b : Z) : Z := wrap64 (a - b).
Definition mul64 (a b : Z) : Z := wrap64 (a * b).
(** C division truncates toward zero. *)
Definition div64 (a b : Z) : Z := wrap64 (Z.quot a b).

Definition shlu32 (a k : Z) : Z := wrapu32 (Z.shiftl a k).
Definition shru32 (a k : Z) : Z := Z.shiftr a k.
Definition oru32 (a b : Z) : Z := Z.lor a b.

Lemma wrap64_id z : in_int64 z -> wrap64 z = z.
Proof.
  unfold in_int64, wrap64, INT64_MIN, INT64_MAX. intros H.
  rewrite Z.mod_small; lia.
Qed.

Lemma wrap64_range z : in_int64 (wrap64 z).
Proof.
  unfold in_int64, wrap64, INT64_MIN, INT64_MAX.
  pose proof (Z.mod_pos_bound (z + 2 ^ 63) (2 ^ 64) ltac:(lia)). lia.
Qed.

End Int.
Import Int.

(** ** Kernel state *)

(** [struct thread *]: an opaque handle owned by the scheduler. *)
Definition thread : Type := nat.

(** [struct sleeping_thread] without its intrusive [elem] link. *)
Record sleeping_thread : Type := mk_sleeping_thread {
  t : thread;
  wake_up_time : Z
}.

Inductive intr_level : Type := INTR_OFF | INTR_ON.

Definition intr_level_eqb (a b : intr_level) : bool :=
  match a, b with
  | INTR_OFF, INTR_OFF | INTR_ON, INTR_ON => true
  | _, _ => false
  end.

(** Calls that leave timer.c, in the order they are made. *)
Inductive event : Type :=
| EvLockAcquire (holder : thread)
| EvLockRelease (holder : thread)
| EvMalloc
| EvFree
| EvThreadBlock (who : thread)
| EvThreadUnblock (who : thread)
| EvThreadTick
| EvBusyWait (iterations : nat).

Record kstate : Type := mk_kstate {
  ticks : Z;                                     (* static int64_t ticks *)
  loops_per_tick : Z;                            (* static unsigned loops_per_tick *)
  wakeup_needed : bool;                          (* static bool wakeup_needed *)
  sleeping_threads_list : list sleeping_thread;  (* static struct list *)
  sleeper_lock : option thread;                  (* struct lock: its holder *)
  intr : intr_level;                             (* intr_get_level () *)
  running : thread;                              (* thread_current () *)
  heap_free : nat;                               (* blocks malloc can still hand out *)
  trace : list event
}.

Definition set_ticks (v : Z) (s : kstate) : kstate :=
  mk_kstate v (loops_per_tick s) (wakeup_needed s) (sleeping_threads_list s)
            (sleeper_lock s) (intr s) (running s) (heap_free s) (trace s).
Definition set_loops_per_tick (v : Z) (s : kstate) : kstate :=
  mk_kstate (ticks s) v (wakeup_needed s) (sleeping_threads_list s)
            (sleeper_lock s) (intr s) (running s) (heap_free s) (trace s).
Definition set_wakeup_needed (v : bool) (s : kstate) : kstate :=
  mk_kstate (ticks s) (loops_per_tick s) v (sleeping_threads_list s)
            (sleeper_lock s) (intr s) (running s) (heap_free s) (trace s).
Definition set_list (v : list sleeping_thread) (s : kstate) : kstate :=
  mk_kstate (ticks s) (loops_per_tick s) (wakeup_needed s) v
            (sleeper_lock s) (intr s) (running s) (heap_free s) (trace s).
Definition set_lock (v : option thread) (s : kstate) : kstate :=
  mk_kstate (ticks s) (loops_per_tick s) (wakeup_needed s) (sleeping_threads_list s)
            v (intr s) (running s) (heap_free s) (trace s).
Definition set_intr (v : intr_level) (s : kstate) : kstate :=
  mk_kstate (ticks s) (loops_per_tick s) (wakeup_needed s) (sleeping_threads_list s)
            (sleeper_lock s) v (running s) (heap_free s) (trace s).
Definition set_running (v : thread) (s : kstate) : kstate :=
  mk_kstate (ticks s) (loops_per_tick s) (wakeup_needed s) (sleeping_threads_list s)
            (sleeper_lock s) (intr s) v (heap_free s) (trace s).
Definition set_heap_free (v : nat) (s : kstate) : kstate :=
  mk_kstate (ticks s) (loops_per_tick s) (wakeup_needed s) (sleeping_threads_list s)
            (sleeper_lock s) (intr s) (running s) v (trace s).
Definition emit (e : event) (s : kstate) : kstate :=
  mk_kstate (ticks s) (loops_per_tick s) (wakeup_needed s) (sleeping_threads_list s)
            (sleeper_lock s) (intr s) (running s) (heap_free s) (trace s ++ [e]).

(** ** Outcomes and the kernel monad *)

Inductive outcome (A : Type) : Type :=
| Done (a : A) (s : kstate)   (* the call returned [a] *)
| Fatal (s : kstate)          (* ASSERT failure or PANIC *)
| Waits (s : kstate)          (* caller suspended on a held lock *)
| Spins (s : kstate).         (* loop still running when fuel ran out *)
Arguments Done {A} a s.
Arguments Fatal {A} s.
Arguments Waits {A} s.
Arguments Spins {A} s.

Definition M (A : Type) : Type := kstate -> outcome A.

Definition ret {A} (a : A) : M A := fun s => Done a s.

Definition bind {A B} (m : M A) (k : A -> M B) : M B :=
  fun s =>
    match m s with
    | Done a s' => k a s'
    | Fatal s' => Fatal s'
    | Waits s' => Waits s'
    | Spins s' => Spins s'
    end.

Declare Scope kernel_scope.
Delimit Scope kernel_scope with kernel.
Notation "x <- m ;; k" := (bind m (fun x => k))
  (at level 61, m at next level, right associativity) : kernel_scope.
Notation "m ;; k" := (bind m (fun _ => k))
  (at level 61, right associativity) : kernel_scope.
Local Open Scope kernel_scope.

Definition get {A} (proj : kstate -> A) : M A := fun s => Done (proj s) s.
Definition modify (f : kstate -> kstate) : M unit := fun s => Done tt (f s).
Definition panic {A} : M A := fun s => Fatal s.
(** [ASSERT (c)] *)
Definition ASSERT (c : bool) : M unit := if c then ret tt else panic.

Definition returns {A} (o : outcome A) : bool :=
  match o with Done _ _ => true | _ => false end.

(** ** Collaborators outside timer.c *)

(** Modelled from the spec: [lock_acquire] of threads/synch.c is not part of
    the sources at hand.  The spec treats the lock as an opaque
    mutual-exclusion primitive: a free lock is taken by the caller, a held
    one makes the caller wait. *)
Definition lock_acquire : M unit := fun s =>
  match sleeper_lock s with
  | None => Done tt (emit (EvLockAcquire (running s)) (set_lock (Some (running s)) s))
  | Some _ => Waits s
  end.

(** Modelled from the spec: [lock_release] of threads/synch.c; only the
    holder may release. *)
Definition lock_release : M unit := fun s =>
  match sleeper_lock s with
  | Some h =>
      if Nat.eqb h (running s)
      then Done tt (emit (EvLockRelease h) (set_lock None s))
      else Fatal s
  | None => Fatal s
  end.

(** Modelled from the spec: [malloc] of threads/malloc.c; it returns NULL
    ([false]) when no block is left (spec section 7 (c)). *)
Definition malloc : M bool := fun s =>
  match heap_free s with
  | O => Done false (emit EvMalloc s)
  | S k => Done true (emit EvMalloc (set_heap_free k s))
  end.

(** Modelled from the spec: [free] of threads/malloc.c. *)
Definition free : M unit := fun s =>
  Done tt (emit EvFree (set_heap_free (S (heap_free s)) s)).

(** Modelled from the spec: [thread_block] of threads/thread.c (section 6,
    [block]): the running thread leaves the Running state and the call is
    recorded. [Done] marks the point at which the caller is parked and from
    which it goes on if it is ever resumed; that it is resumed is nothing
    the model grants. *)
Definition thread_block : M unit := fun s =>
  Done tt (emit (EvThreadBlock (running s)) s).

(** Modelled from the spec: [thread_unblock] of threads/thread.c (section 6,
    [unblock]): marks the thread runnable and never blocks. *)
Definition thread_unblock (who : thread) : M unit := fun s =>
  Done tt (emit (EvThreadUnblock who) s).

(** Modelled from the spec: [thread_tick] of threads/thread.c (section 6,
    [on_tick]): the scheduler's own accounting. *)
Definition thread_tick : M unit := fun s => Done tt (emit EvThreadTick s).

(** Modelled from the spec: threads/interrupt.c. [intr_disable] and
    [intr_enable] return the previous level. *)
Definition intr_get_level : M intr_level := get intr.
Definition intr_set_level (l : intr_level) : M intr_level := fun s =>
  Done (intr s) (set_intr l s).
Definition intr_disable : M intr_level := intr_set_level INTR_OFF.
Definition intr_enable : M intr_level := intr_set_level INTR_ON.

(** ** lib/kernel/list.h on the sleep queue *)

Section ListOps.
Context {A : Type}.

(** Modelled from the spec: lib/kernel/list.c is not part of the sources
    at hand. Section 4.3 step 4: the insertion point is the first entry
    that the new one is less than, or the tail. *)
Fixpoint list_insert_ordered (l : list A) (elem : A) (less : A -> A -> bool) : list A :=
  match l with
  | [] => [elem]
  | e :: rest =>
      if less elem e then elem :: e :: rest
      else e :: list_insert_ordered rest elem less
  end.

(** Modelled from the spec: [list_push_back], [list_empty], [list_front]
    and [list_pop_front] of lib/kernel/list.c. *)
Definition list_push_back (l : list A) (elem : A) : list A := l ++ [elem].
Definition list_empty (l : list A) : bool :=
  match l with [] => true | _ :: _ => false end.
Definition list_front (l : list A) : option A :=
  match l with [] => None | e :: _ => Some e end.
Definition list_pop_front (l : list A) : list A :=
  match l with [] => [] | _ :: rest => rest end.
End ListOps.

(** ** timer.c *)

(** [init_sleeper_lock] *)
Definition init_sleeper_lock : M unit := modify (set_lock None).

(** [timer_init]: the empty sleep queue (interrupt registration is outside
    the model). *)
Definition timer_init : M unit := modify (set_list []).

(** [timer_ticks] *)
Definition timer_ticks : M Z :=
  old_level <- intr_disable ;;
  t <- get ticks ;;
  intr_set_level old_level ;;
  ret t.

(** [timer_elapsed] *)
Definition timer_elapsed (then_ : Z) : M Z :=
  now <- timer_ticks ;;
  ret (sub64 now then_).

(** [compare_wake_up_time] *)
Definition compare_wake_up_time (a b : sleeping_thread) : bool :=
  wake_up_time a <? wake_up_time b.

(** The if/else of [timer_sleep] that links the new entry into the list. *)
Definition sleep_enqueue (q : list sleeping_thread) (st : sleeping_thread)
  : list sleeping_thread :=
  if list_empty q then list_push_back q st
  else list_insert_ordered q st compare_wake_up_time.

(** [timer_sleep] *)
Definition timer_sleep (ticks_arg : Z) : M unit :=
  if ticks_arg <=? 0 then ret tt
  else
    start <- timer_ticks ;;
    let wake := add64 start ticks_arg in
    lock_acquire ;;
    got <- malloc ;;
    (if got : bool then ret tt else panic) ;;
    cur <- get running ;;
    let st := mk_sleeping_thread cur wake in
    q <- get sleeping_threads_list ;;
    modify (set_list (sleep_enqueue q st)) ;;
    lock_release ;;
    thread_block.

(** [busy_wait]: [while (loops-- > 0) barrier ();] returns the number of
    times the body ran and the value left in [loops]. *)
Equations? busy_wait_from (loops : Z) (iterations : nat) : nat * Z
  by wf (Z.to_nat loops) lt :=
  busy_wait_from loops iterations with Z_lt_dec 0 loops := {
    | left _ => busy_wait_from (sub64 loops 1) (S iterations)
    | right _ => (iterations, sub64 loops 1)
  }.
Proof.
  unfold sub64.
  pose proof (wrap64_range (loops - 1)) as Hr.
  unfold wrap64 in *. unfold in_int64, INT64_MIN, INT64_MAX in Hr.
  destruct (Z_le_dec loops (2 ^ 63)) as [Hle | Hgt].
  - rewrite Z.mod_small by lia. lia.
  - lia.
Qed.

Definition busy_wait (loops : Z) : M unit := fun s =>
  Done tt (emit (EvBusyWait (fst (busy_wait_from loops 0))) s).

(** [while (!list_empty (...))] of [timer_wakeup]: wakes every entry at the
    front of the queue whose wake-up time is not after [curr]. *)
Fixpoint wakeup_drain (fuel : nat) (curr : Z) : M unit :=
  match fuel with
  | O => fun s => Spins s
  | S fuel' =>
      q <- get sleeping_threads_list ;;
      if list_empty q then ret tt
      else
        match list_front q with
        | None => panic                       (* list_front asserts a non-empty list *)
        | Some st =>
            if wake_up_time st >? curr then ret tt          (* break *)
            else
              modify (set_list (list_pop_front q)) ;;
              thread_unblock (t st) ;;
              free ;;
              wakeup_drain fuel' curr
        end
  end.

(** [if (wakeup_needed) { ... }] of [timer_wakeup]: one pass of the wake
    dispatcher. Each turn of the inner loop unlinks an entry, so one turn
    more than the queue is long is fuel enough. *)
Definition wakeup_pass : M unit :=
  need <- get wakeup_needed ;;
  if need : bool then
    modify (set_wakeup_needed false) ;;
    lock_acquire ;;
    curr <- timer_ticks ;;
    q <- get sleeping_threads_list ;;
    wakeup_drain (S (length q)) curr ;;
    lock_release
  else ret tt.

Section Frequency.

(** [TIMER_FREQ] comes from devices/timer.h; timer.c accepts 19..1000. *)
Variable TIMER_FREQ : Z.

Definition timer_freq_supported : Prop := 19 <= TIMER_FREQ <= 1000.

(** [real_time_delay] *)
Definition real_time_delay (num denom : Z) : M unit :=
  ASSERT (Z.rem denom 1000 =? 0) ;;
  lpt <- get loops_per_tick ;;
  busy_wait (div64 (mul64 (div64 (mul64 lpt num) 1000) TIMER_FREQ)
                   (Z.quot denom 1000)).

(** The tick count [num * TIMER_FREQ / denom] of [real_time_sleep]. *)
Definition real_time_ticks (num denom : Z) : Z :=
  div64 (mul64 num TIMER_FREQ) denom.

(** [real_time_sleep] *)
Definition real_time_sleep (num denom : Z) : M unit :=
  let ticks_ := real_time_ticks num denom in
  level <- intr_get_level ;;
  ASSERT (intr_level_eqb level INTR_ON) ;;
  if ticks_ >? 0 then timer_sleep ticks_
  else real_time_delay num denom.

Definition timer_msleep (ms : Z) : M unit := real_time_sleep ms 1000.
Definition timer_usleep (us : Z) : M unit := real_time_sleep us (1000 * 1000).
Definition timer_nsleep (ns : Z) : M unit := real_time_sleep ns (1000 * 1000 * 1000).

Definition timer_mdelay (ms : Z) : M unit := real_time_delay ms 1000.
Definition timer_udelay (us : Z) : M unit := real_time_delay us (1000 * 1000).
Definition timer_ndelay (ns : Z) : M unit := real_time_delay ns (1000 * 1000 * 1000).

(** [timer_wakeup]: [while (true)] has no exit; [fuel] bounds the number
    of iterations that are followed. *)
Fixpoint timer_wakeup (fuel : nat) : M unit :=
  match fuel with
  | O => fun s => Spins s
  | S fuel' =>
      wakeup_pass ;;
      old_level <- intr_enable ;;
      timer_msleep 1 ;;
      intr_set_level old_level ;;
      timer_wakeup fuel'
  end.

(** [timer_interrupt] *)
Definition timer_interrupt (fuel : nat) : M unit :=
  modify (fun s => set_ticks (add64 (ticks s) 1) s) ;;
  thread_tick ;;
  timer_wakeup fuel ;;
  modify (set_wakeup_needed true).

End Frequency.

(** ** Calibration *)

Section Calibration.

(** Whether a timer tick arrives while the [n]-th measurement spins for
    [loops] iterations: a property of the machine, not of timer.c. *)
Variable tick_arrives : nat -> Z -> bool.

(** [too_many_loops], as measurement number [n]. The first loop,
    [while (ticks == start) barrier ();], waits for the interrupt handler
    to count a tick; here that tick is taken to arrive. Whether it does is
    not up to this function, so that a measurement returns in this model
    says nothing about whether it does in the kernel. *)
Definition too_many_loops (n : nat) (loops : Z) : M bool :=
  (* while (ticks == start) barrier (): over once the next tick is counted *)
  modify (fun s => set_ticks (add64 (ticks s) 1) s) ;;
  start <- get ticks ;;
  busy_wait loops ;;
  (if tick_arrives n loops
   then modify (fun s => set_ticks (add64 (ticks s) 1) s)
   else ret tt) ;;
  now <- get ticks ;;
  ret (negb (start =? now)).

(** First loop of [timer_calibrate]: doubles [loops_per_tick] while the
    doubled count still fits in a tick. Returns the number of the next
    measurement. *)
Fixpoint calibrate_search (fuel : nat) (n : nat) : M nat :=
  match fuel with
  | O => fun s => Spins s
  | S fuel' =>
      lpt <- get loops_per_tick ;;
      many <- too_many_loops n (shlu32 lpt 1) ;;
      if many : bool then ret (S n)
      else
        modify (set_loops_per_tick (shlu32 lpt 1)) ;;
        lpt' <- get loops_per_tick ;;
        ASSERT (negb (lpt' =? 0)) ;;
        calibrate_search fuel' (S n)
  end.

(** Second loop of [timer_calibrate]:
    [for (test_bit = high_bit >> 1; test_bit != high_bit >> 10; test_bit >>= 1)]. *)
Fixpoint calibrate_refine (fuel : nat) (n : nat) (high_bit test_bit : Z) : M nat :=
  match fuel with
  | O => fun s => Spins s
  | S fuel' =>
      if test_bit =? shru32 high_bit 10 then ret n
      else
        lpt <- get loops_per_tick ;;
        many <- too_many_loops n (oru32 lpt test_bit) ;;
        (if many : bool then ret tt
         else modify (fun s => set_loops_per_tick (oru32 (loops_per_tick s) test_bit) s)) ;;
        calibrate_refine fuel' (S n) high_bit (shru32 test_bit 1)
  end.

(** [timer_calibrate] (console output left out). *)
Definition timer_calibrate (fuel : nat) : M unit :=
  level <- intr_get_level ;;
  ASSERT (intr_level_eqb level INTR_ON) ;;
  modify (set_loops_per_tick (shlu32 1 10)) ;;
  n <- calibrate_search fuel O ;;
  high_bit <- get loops_per_tick ;;
  calibrate_refine fuel n high_bit (shru32 high_bit 1) ;;
  ret tt.

End Calibration.

(** ** Runs of the subsystem *)

(** The pieces of timer.c that touch the shared state, as they interleave:
    the head of [timer_interrupt] (tick count and scheduler accounting), its
    last statement (raising [wakeup_needed]), a call of [timer_sleep] by some
    thread, and one pass of the wake dispatcher. *)
Inductive op : Type :=
| OpTick
| OpNeedWakeup
| OpSleep (who : thread) (n : Z)
| OpWakeup.

Definition step (o : op) : M unit :=
  match o with
  | OpTick => modify (fun s => set_ticks (add64 (ticks s) 1) s) ;; thread_tick
  | OpNeedWakeup => modify (set_wakeup_needed true)
  | OpSleep who n => modify (set_running who) ;; timer_sleep n
  | OpWakeup => wakeup_pass
  end.

Fixpoint run (ops : list op) : M unit :=
  match ops with
  | [] => ret tt
  | o :: rest => step o ;; run rest
  end.

(** The entry a step of a run asks to be queued, if any: thread [who],
    calling at tick [ticks s] for [n > 0] ticks, asks for [ticks s + n]. *)
Definition step_request (o : op) (s : kstate) : list sleeping_thread :=
  match o with
  | OpSleep who n =>
      if 0 <? n then [mk_sleeping_thread who (add64 (ticks s) n)] else []
  | _ => []
  end.

(** The entries requested by the [timer_sleep] calls of a run, in the order
    the calls are made. *)
Fixpoint requests (ops : list op) (s : kstate) : list sleeping_thread :=
  match ops with
  | [] => []
  | o :: rest =>
      match step o s with
      | Done _ s' => step_request o s ++ requests rest s'
      | _ => []
      end
  end.

(** Entries of [l] that wake at [w], in their order in [l]. *)
Definition waking_at (w : Z) (l : list sleeping_thread) : list sleeping_thread :=
  filter (fun e => wake_up_time e =? w) l.

(** Ascending wake-up times. *)
Fixpoint sorted_by_wake (l : list sleeping_thread) : Prop :=
  match l with
  | [] => True
  | a :: rest =>
      match rest with
      | [] => True
      | b :: _ => wake_up_time a <= wake_up_time b /\ sorted_by_wake rest
      end
  end.

(** Block and unblock calls of a trace, each with whether the sleeper lock
    is held when the call is made. *)
Fixpoint switches (held : bool) (evs : list event) : list (event * bool) :=
  match evs with
  | [] => []
  | EvLockAcquire _ :: rest => switches true rest
  | EvLockRelease _ :: rest => switches false rest
  | (EvThreadBlock _ as e) :: rest => (e, held) :: switches held rest
  | (EvThreadUnblock _ as e) :: rest => (e, held) :: switches held rest
  | _ :: rest => switches held rest
  end.

(** ** Observations used in the statements *)

(** The queue as one wake-up scan at tick [curr] divides it: the entries it
    wakes, and the entries it leaves. *)
Fixpoint split_due (curr : Z) (q : list sleeping_thread)
  : list sleeping_thread * list sleeping_thread :=
  match q with
  | [] => ([], [])
  | e :: rest =>
      if wake_up_time e >? curr then ([], q)
      else let (woken, left) := split_due curr rest in (e :: woken, left)
  end.

(** The calls a scan makes for the entries it wakes. *)
Definition wake_calls (woken : list sleeping_thread) : list event :=
  flat_map (fun e => [EvThreadUnblock (t e); EvFree]) woken.

(** Threads handed to [thread_unblock] in a trace, in call order. *)
Fixpoint unblocked (evs : list event) : list thread :=
  match evs with
  | [] => []
  | EvThreadUnblock who :: rest => who :: unblocked rest
  | _ :: rest => unblocked rest
  end.

(** The queue is sorted, and among the entries of any one wake-up time it
    holds the latest requests, in request order. *)
Definition queue_in_order (q requested : list sleeping_thread) : Prop :=
  sorted_by_wake q
  /\ forall w : Z, exists earlier,
       waking_at w requested = earlier ++ waking_at w q.

(** Spec section 4.3 step 4 in its own words: the new entry goes before the
    first entry whose wake tick exceeds its own, or at the tail. *)
Fixpoint spec_insert_sorted (q : list sleeping_thread) (st : sleeping_thread)
  : list sleeping_thread :=
  match q with
  | [] => [st]
  | e :: rest =>
      if wake_up_time st <? wake_up_time e then st :: e :: rest
      else e :: spec_insert_sorted rest st
  end.

(** The duration-based sleep wrappers with their denominators. *)
Definition sleep_wrappers (F : Z) : list ((Z -> M unit) * Z) :=
  [(timer_msleep F, 1000);
   (timer_usleep F, 1000 * 1000);
   (timer_nsleep F, 1000 * 1000 * 1000)].

(** A machine on which the first measurement overruns its tick and no later
    one does. *)
Definition first_overruns (n : nat) (loops : Z) : bool := Nat.eqb n 0.

(** ** Sample states *)

(** The statics of timer.c as the loader leaves them, in a kernel with
    [heap] free blocks. *)
Definition boot_state (heap : nat) : kstate :=
  mk_kstate 0 0 false [] None INTR_OFF 0%nat heap [].

(** Thread 7 running at tick 10 with interrupts on, nothing asleep. *)
Definition idle_state : kstate :=
  mk_kstate 10 1024 false [] None INTR_ON 7%nat 4%nat [].

(** The same with interrupts off. *)
Definition idle_state_intr_off : kstate := set_intr INTR_OFF idle_state.

(** Tick 5, thread 1 asleep until tick 5, a wake-up pass requested. *)
Definition due_state : kstate :=
  mk_kstate 5 1024 true [mk_sleeping_thread 1%nat 5] None INTR_ON 0%nat 4%nat [].

(** Four threads go to sleep from tick 10 on, two of them until tick 15;
    then a tick passes and the dispatcher runs once. *)
Definition sample_run : list op :=
  [OpSleep 1%nat 5; OpSleep 2%nat 3; OpSleep 3%nat 5; OpSleep 4%nat 1;
   OpTick; OpNeedWakeup; OpWakeup].

(** ** Further observations *)

(** The kernel state a call ends in, however it ends. *)
Definition final {A} (o : outcome A) : kstate :=
  match o with
  | Done _ s => s
  | Fatal s => s
  | Waits s => s
  | Spins s => s
  end.

(** The duration-based busy-wait wrappers with their denominators. *)
Definition delay_wrappers (F : Z) : list ((Z -> M unit) * Z) :=
  [(timer_mdelay F, 1000);
   (timer_udelay F, 1000 * 1000);
   (timer_ndelay F, 1000 * 1000 * 1000)].

(** Number of timer ticks counted in a run. *)
Fixpoint count_ticks (ops : list op) : Z :=
  match ops with
  | [] => 0
  | OpTick :: rest => 1 + count_ticks rest
  | _ :: rest => count_ticks rest
  end.

(** What the body of [timer_interrupt] leaves alone as long as no wake-up
    is requested: the tick counter, the flag itself and the threads
    unblocked so far. *)
Definition scan_stays_off (s s' : kstate) : Prop :=
  ticks s' = ticks s
  /\ (wakeup_needed s = false ->
      wakeup_needed s' = false
      /\ unblocked (trace s') = unblocked (trace s)).

(** A computation that respects a relation between the state it starts in
    and the state it ends in, however it ends. *)
Definition keeps {A} (R : kstate -> kstate -> Prop) (m : M A) : Prop :=
  forall s, R s (final (m s)).

(** What a run has done with the requests made so far: each is either in
    [woken] (its owner was unblocked) or still queued, and requests for the
    same tick were woken before the queued ones, in request order. *)
Definition accounted (q requested woken : list sleeping_thread) : Prop :=
  sorted_by_wake q
  /\ Permutation requested (woken ++ q)
  /\ forall w : Z, waking_at w requested = waking_at w woken ++ waking_at w q.

(** Thread 3 asks for 5 ticks at tick 10 when no block is left to allocate. *)
Definition exhausted_state : kstate :=
  mk_kstate 10 1024 false [] None INTR_ON 3%nat 0%nat [].

(** A wake-up pass is requested while thread 2 holds the sleeper lock. *)
Definition contended_state : kstate :=
  mk_kstate 5 1024 true [mk_sleeping_thread 1%nat 5] (Some 2%nat) INTR_ON 0%nat 4%nat [].

(** ** Executions of timer.c *)

(** Whether somebody holds the sleeper lock. *)
Definition lock_held (s : kstate) : bool :=
  match sleeper_lock s with Some _ => true | None => false end.

(** Whether the lock is held after the calls [evs], when [held] says
    whether it was before. *)
Fixpoint held_after (held : bool) (evs : list event) : bool :=
  match evs with
  | [] => held
  | EvLockAcquire _ :: rest => held_after true rest
  | EvLockRelease _ :: rest => held_after false rest
  | _ :: rest => held_after held rest
  end.

(** What every function of timer.c respects as long as [wakeup_needed] is
    down: the flag stays down, queued entries stay queued, nobody is passed
    to [thread_unblock], and no [thread_block] is called while the sleeper
    lock is held. *)
Definition dispatcher_idle (s s' : kstate) : Prop :=
  wakeup_needed s = false ->
  wakeup_needed s' = false
  /\ (forall e, In e (sleeping_threads_list s) -> In e (sleeping_threads_list s'))
  /\ exists evs,
       trace s' = trace s ++ evs
       /\ unblocked evs = []
       /\ Forall (fun c => snd c = false) (switches (lock_held s) evs)
       /\ held_after (lock_held s) evs = lock_held s'.

(** The entry points of timer.c, as the rest of the kernel and the interrupt
    controller use them once [timer_init] and [init_sleeper_lock] have run.
    [timer_wakeup] is not static, so it may be called directly.  The last
    constructor is the kernel switching interrupts on or off between
    calls. *)
Inductive call : Type :=
| CallSleep (who : thread) (n : Z)
| CallMsleep (who : thread) (ms : Z)
| CallUsleep (who : thread) (us : Z)
| CallNsleep (who : thread) (ns : Z)
| CallMdelay (ms : Z)
| CallUdelay (us : Z)
| CallNdelay (ns : Z)
| CallTicks
| CallElapsed (then_ : Z)
| CallCalibrate (arrives : nat -> Z -> bool) (fuel : nat)
| CallWakeup (fuel : nat)
| CallInterrupt (fuel : nat)
| EnvIntr (level : intr_level).

(** The state a call leaves, however it ends; a loop without exit is
    followed for [fuel] turns. *)
Definition perform (F : Z) (c : call) (s : kstate) : kstate :=
  match c with
  | CallSleep who n => final (timer_sleep n (set_running who s))
  | CallMsleep who ms => final (timer_msleep F ms (set_running who s))
  | CallUsleep who us => final (timer_usleep F us (set_running who s))
  | CallNsleep who ns => final (timer_nsleep F ns (set_running who s))
  | CallMdelay ms => final (timer_mdelay F ms s)
  | CallUdelay us => final (timer_udelay F us s)
  | CallNdelay ns => final (timer_ndelay F ns s)
  | CallTicks => final (timer_ticks s)
  | CallElapsed then_ => final (timer_elapsed then_ s)
  | CallCalibrate arrives fuel => final (timer_calibrate arrives fuel s)
  | CallWakeup fuel => final (timer_wakeup F fuel s)
  | CallInterrupt fuel => final (timer_interrupt F fuel s)
  | EnvIntr level => set_intr level s
  end.

(** Calls one after the other, each starting where the one before it left
    the kernel, whether that one returned or not: every execution of the
    subsystem is among these. *)
Fixpoint execute (F : Z) (cs : list call) (s : kstate) : kstate :=
  match cs with
  | [] => s
  | c :: rest => execute F rest (perform F c s)
  end.

(** Tick 0, nothing calibrated or queued, thread 7 running with interrupts
    on. *)
Definition fresh_state : kstate :=
  mk_kstate 0 0 false [] None INTR_ON 7%nat 4%nat [].

(** * Properties *)

(** ** The monad *)

Lemma bind_done {A B} (m : M A) (k : A -> M B) (s s2 : kstate) (b : B) :
  bind m k s = Done b s2 ->
  exists a s1, m s = Done a s1 /\ k a s1 = Done b s2.
Proof.
  unfold bind. destruct (m s) as [a s1 | s1 | s1 | s1]; try discriminate.
  intros H. exists a, s1. split; [reflexivity | exact H].
Qed.

Lemma bind_never_returns {A B} (m : M A) (k : A -> M B) (s : kstate) :
  (forall a s', returns (k a s') = false) -> returns (bind m k s) = false.
Proof.
  intros Hk. unfold bind. destruct (m s); simpl; auto.
Qed.

Lemma timer_ticks_reads (s : kstate) : timer_ticks s = Done (ticks s) s.
Proof.
  unfold timer_ticks, bind, intr_disable, intr_set_level, get, ret; simpl.
  f_equal. destruct s; reflexivity.
Qed.

(** ** busy_wait *)

Lemma busy_wait_from_count (loops : Z) (iterations : nat) :
  in_int64 loops ->
  fst (busy_wait_from loops iterations) = (iterations + Z.to_nat loops)%nat.
Proof.
  funelim (busy_wait_from loops iterations); intros Hr.
  - match goal with
    | IH : in_int64 _ -> fst _ = _ |- _ =>
        assert (Hs : sub64 loops 1 = loops - 1)
          by (apply wrap64_id; unfold in_int64, INT64_MIN, INT64_MAX in *; lia);
        rewrite Hs in *; rewrite IH
    end.
    + lia.
    + unfold in_int64, INT64_MIN, INT64_MAX in *; lia.
  - simpl. lia.
Qed.

(** C9: [busy_wait] returns for every int64 argument; its body runs exactly
    [loops] times when [loops > 0] and not at all when [loops <= 0]. *)
Theorem busy_wait_terminates_exact (loops : Z) (s : kstate) :
  in_int64 loops ->
  exists iterations : nat,
    busy_wait loops s = Done tt (emit (EvBusyWait iterations) s)
    /\ (0 < loops -> Z.of_nat iterations = loops)
    /\ (loops <= 0 -> iterations = 0%nat).
Proof.
  intros Hr. exists (fst (busy_wait_from loops 0)).
  split; [reflexivity |].
  rewrite (busy_wait_from_count loops 0 Hr). simpl.
  split; intros H; lia.
Qed.

Lemma busy_wait_terminates_exact_witness :
  in_int64 (-6)
  /\ exists iterations : nat,
       busy_wait (-6) idle_state = Done tt (emit (EvBusyWait iterations) idle_state)
       /\ (0 < -6 -> Z.of_nat iterations = -6)
       /\ (-6 <= 0 -> iterations = 0%nat).
Proof.
  assert (H : in_int64 (-6)) by (unfold in_int64, INT64_MIN, INT64_MAX; lia).
  split; [exact H | exact (busy_wait_terminates_exact (-6) idle_state H)].
Defined.

(** ** The sleep queue *)

Lemma sleep_enqueue_uniform (q : list sleeping_thread) (st : sleeping_thread) :
  sleep_enqueue q st = list_insert_ordered q st compare_wake_up_time.
Proof. destruct q; reflexivity. Qed.

Lemma list_insert_ordered_spec (q : list sleeping_thread) (st : sleeping_thread) :
  list_insert_ordered q st compare_wake_up_time = spec_insert_sorted q st.
Proof.
  induction q as [| e rest IH]; simpl; [reflexivity |].
  unfold compare_wake_up_time at 1. rewrite IH. reflexivity.
Qed.

(** C10: the empty-queue branch of [timer_sleep] (list_push_back) yields the
    queue that the ordered-insertion branch yields on an empty list, so for
    every prior queue the if/else as a whole is ordered insertion, the one
    insertion rule of spec section 4.3. *)
Theorem empty_case_is_ordered_insertion (st : sleeping_thread) :
  list_push_back [] st = list_insert_ordered [] st compare_wake_up_time
  /\ forall q : list sleeping_thread,
       sleep_enqueue q st = list_insert_ordered q st compare_wake_up_time
       /\ sleep_enqueue q st = spec_insert_sorted q st.
Proof.
  split.
  - reflexivity.
  - intros q. rewrite sleep_enqueue_uniform. split; [reflexivity |].
    apply list_insert_ordered_spec.
Qed.

(** ** Non-positive sleeps *)

Lemma timer_sleep_early_return (n : Z) (s : kstate) :
  n <= 0 -> timer_sleep n s = Done tt s.
Proof.
  intros Hn. unfold timer_sleep.
  destruct (n <=? 0) eqn:E.
  - reflexivity.
  - apply Z.leb_gt in E. lia.
Qed.

(** C5: for every n <= 0, [timer_sleep n] returns at once and leaves the
    whole kernel state as it was: the sleeper lock and the queue untouched,
    and no call to the lock, the allocator or the scheduler recorded. *)
Theorem timer_sleep_nonpositive_noop (n : Z) (s : kstate) :
  n <= 0 ->
  timer_sleep n s = Done tt s
  /\ forall s', timer_sleep n s = Done tt s' ->
       sleeping_threads_list s' = sleeping_threads_list s
       /\ sleeper_lock s' = sleeper_lock s
       /\ trace s' = trace s.
Proof.
  intros Hn. rewrite (timer_sleep_early_return n s Hn).
  split; [reflexivity |].
  intros s' H. inversion H; subst. auto.
Qed.

Lemma timer_sleep_nonpositive_noop_witness :
  -3 <= 0 /\ timer_sleep (-3) idle_state = Done tt idle_state.
Proof.
  split; [lia | apply (proj1 (timer_sleep_nonpositive_noop (-3) idle_state ltac:(lia)))].
Defined.

(** ** Interrupt-level checks *)

Lemma real_time_sleep_asserts_intr_on (F num denom : Z) (s : kstate) :
  real_time_sleep F num denom (set_intr INTR_OFF s) = Fatal (set_intr INTR_OFF s).
Proof. reflexivity. Qed.

(** C6 (fails for [timer_sleep]): called with interrupts off, [timer_sleep 5]
    meets no assertion: it takes the lock, queues thread 7 for tick 15,
    releases the lock and blocks. The wrappers [timer_msleep],
    [timer_usleep] and [timer_nsleep] do stop at the ASSERT of
    [real_time_sleep]. *)
Theorem timer_sleep_runs_with_interrupts_off :
  intr idle_state_intr_off = INTR_OFF
  /\ timer_sleep 5 idle_state_intr_off =
       Done tt (mk_kstate 10 1024 false [mk_sleeping_thread 7%nat 15] None
                          INTR_OFF 7%nat 3%nat
                          [EvLockAcquire 7%nat; EvMalloc; EvLockRelease 7%nat;
                           EvThreadBlock 7%nat])
  /\ (forall (F ms : Z) (s : kstate),
        timer_msleep F ms (set_intr INTR_OFF s) = Fatal (set_intr INTR_OFF s))
  /\ (forall (F us : Z) (s : kstate),
        timer_usleep F us (set_intr INTR_OFF s) = Fatal (set_intr INTR_OFF s))
  /\ (forall (F ns : Z) (s : kstate),
        timer_nsleep F ns (set_intr INTR_OFF s) = Fatal (set_intr INTR_OFF s)).
Proof.
  split; [reflexivity |].
  split; [vm_compute; reflexivity |].
  repeat split; intros; apply real_time_sleep_asserts_intr_on.
Qed.

(** ** The interrupt handler *)

Lemma timer_wakeup_never_returns (F : Z) (fuel : nat) (s : kstate) :
  returns (timer_wakeup F fuel s) = false.
Proof.
  revert s. induction fuel as [| fuel IH]; intros s.
  - reflexivity.
  - cbn [timer_wakeup].
    repeat (apply bind_never_returns; intros).
    apply IH.
Qed.

Lemma wakeup_pass_idle (s : kstate) :
  wakeup_needed s = false -> wakeup_pass s = Done tt s.
Proof.
  intros H. unfold wakeup_pass, bind, get. rewrite H. reflexivity.
Qed.

(** With [TIMER_FREQ = 100] and nothing to wake, every turn of the loop of
    [timer_wakeup] is one sub-tick busy wait, and the loop goes on. *)
Lemma timer_wakeup_spins (fuel : nat) (s : kstate) :
  wakeup_needed s = false ->
  exists s', timer_wakeup 100 fuel s = Spins s' /\ wakeup_needed s' = false.
Proof.
  revert s. induction fuel as [| fuel IH]; intros s Hs.
  - exists s. split; [reflexivity | exact Hs].
  - cbn [timer_wakeup]. unfold bind at 1. rewrite (wakeup_pass_idle s Hs).
    set (k := fst (busy_wait_from
                (div64 (mul64 (div64 (mul64 (loops_per_tick s) 1) 1000) 100)
                       (Z.quot 1000 1000)) 0)).
    assert (Hstep :
      (old_level <- intr_enable ;; timer_msleep 100 1 ;;
       intr_set_level old_level ;; timer_wakeup 100 fuel) s
      = timer_wakeup 100 fuel (emit (EvBusyWait k) s)).
    { unfold bind, intr_enable, intr_set_level, timer_msleep, real_time_sleep,
        intr_get_level, get, ASSERT, ret; simpl.
      replace (real_time_ticks 100 1 1000 >? 0) with false by (vm_compute; reflexivity).
      unfold real_time_delay, bind, ASSERT, get, ret, busy_wait; simpl.
      reflexivity. }
    rewrite Hstep. apply IH. exact Hs.
Qed.

Lemma timer_interrupt_head (F : Z) (fuel : nat) (s : kstate) :
  timer_interrupt F fuel s =
  (timer_wakeup F fuel ;; modify (set_wakeup_needed true))
    (emit EvThreadTick (set_ticks (add64 (ticks s) 1) s)).
Proof. reflexivity. Qed.

(** C3 (fails): [timer_interrupt] never returns. Whatever the state and
    however many turns of [while (true)] in [timer_wakeup] are followed, the
    handler has not returned, so its last statement is never reached; from
    the boot state with [TIMER_FREQ = 100] it neither stops nor waits
    either: it is still spinning after any number of turns. *)
Theorem timer_interrupt_never_returns :
  (forall (F : Z) (fuel : nat) (s : kstate),
      returns (timer_interrupt F fuel s) = false)
  /\ (forall (fuel : nat) (heap : nat),
        exists s', timer_interrupt 100 fuel (boot_state heap) = Spins s').
Proof.
  split.
  - intros F fuel s. rewrite timer_interrupt_head. unfold bind.
    pose proof (timer_wakeup_never_returns F fuel
                  (emit EvThreadTick (set_ticks (add64 (ticks s) 1) s))) as H.
    destruct (timer_wakeup F fuel _); simpl in *; congruence.
  - intros fuel heap. rewrite timer_interrupt_head. unfold bind.
    destruct (timer_wakeup_spins fuel
                (emit EvThreadTick
                   (set_ticks (add64 (ticks (boot_state heap)) 1) (boot_state heap))))
      as [s' [Hs' _]]; [reflexivity |].
    rewrite Hs'. exists s'. reflexivity.
Qed.

(** ** timer_sleep, step by step *)

Lemma timer_sleep_queues (n : Z) (s : kstate) (k : nat) :
  0 < n -> sleeper_lock s = None -> heap_free s = S k ->
  timer_sleep n s =
  Done tt (mk_kstate (ticks s) (loops_per_tick s) (wakeup_needed s)
             (sleep_enqueue (sleeping_threads_list s)
                (mk_sleeping_thread (running s) (add64 (ticks s) n)))
             None (intr s) (running s) k
             (trace s ++ [EvLockAcquire (running s); EvMalloc;
                          EvLockRelease (running s); EvThreadBlock (running s)])).
Proof.
  intros Hn Hlock Hheap. unfold timer_sleep.
  destruct (n <=? 0) eqn:E; [apply Z.leb_le in E; lia |].
  unfold bind at 1. rewrite timer_ticks_reads.
  unfold bind, lock_acquire, malloc, get, modify, lock_release, thread_block, ret.
  rewrite Hlock. simpl. rewrite Hheap. simpl.
  rewrite Nat.eqb_refl. simpl.
  unfold emit; simpl. repeat rewrite <- app_assoc. reflexivity.
Qed.

Lemma timer_sleep_done_inv (n : Z) (s s' : kstate) :
  timer_sleep n s = Done tt s' ->
  (n <= 0 /\ s' = s)
  \/ (0 < n /\ sleeper_lock s = None /\
      exists k, heap_free s = S k /\
        s' = mk_kstate (ticks s) (loops_per_tick s) (wakeup_needed s)
               (sleep_enqueue (sleeping_threads_list s)
                  (mk_sleeping_thread (running s) (add64 (ticks s) n)))
               None (intr s) (running s) k
               (trace s ++ [EvLockAcquire (running s); EvMalloc;
                            EvLockRelease (running s); EvThreadBlock (running s)])).
Proof.
  intros H. destruct (Z_le_gt_dec n 0) as [Hle | Hgt].
  - left. rewrite timer_sleep_early_return in H by exact Hle.
    split; [exact Hle | congruence].
  - right. assert (Hn : 0 < n) by lia.
    destruct (sleeper_lock s) as [h |] eqn:Hlock.
    + exfalso. revert H. unfold timer_sleep.
      destruct (n <=? 0) eqn:E; [apply Z.leb_le in E; lia |].
      unfold bind at 1. rewrite timer_ticks_reads.
      unfold bind, lock_acquire. rewrite Hlock. discriminate.
    + destruct (heap_free s) as [| k] eqn:Hheap.
      * exfalso. revert H. unfold timer_sleep.
        destruct (n <=? 0) eqn:E; [apply Z.leb_le in E; lia |].
        unfold bind at 1. rewrite timer_ticks_reads.
        unfold bind, lock_acquire, malloc. rewrite Hlock. simpl.
        rewrite Hheap. discriminate.
      * rewrite (timer_sleep_queues n s k Hn Hlock Hheap) in H.
        repeat split; try assumption. exists k. split; congruence.
Qed.

(** ** The wake-up scan *)

Lemma split_due_app (curr : Z) (q : list sleeping_thread) :
  q = fst (split_due curr q) ++ snd (split_due curr q).
Proof.
  induction q as [| e rest IH]; simpl.
  - reflexivity.
  - destruct (wake_up_time e >? curr).
    + reflexivity.
    + destruct (split_due curr rest) as [woken left]. simpl in *.
      rewrite IH at 1. reflexivity.
Qed.

Lemma split_due_reached (curr : Z) (q : list sleeping_thread) :
  Forall (fun e => wake_up_time e <= curr) (fst (split_due curr q)).
Proof.
  induction q as [| e rest IH]; simpl.
  - constructor.
  - destruct (wake_up_time e >? curr) eqn:E.
    + constructor.
    + destruct (split_due curr rest) as [woken left]. simpl in *.
      constructor; [| exact IH].
      rewrite Z.gtb_ltb, Z.ltb_ge in E. exact E.
Qed.

Lemma wakeup_drain_result (fuel : nat) (curr : Z) (s : kstate) :
  (length (sleeping_threads_list s) < fuel)%nat ->
  wakeup_drain fuel curr s =
  Done tt (mk_kstate (ticks s) (loops_per_tick s) (wakeup_needed s)
             (snd (split_due curr (sleeping_threads_list s)))
             (sleeper_lock s) (intr s) (running s)
             (heap_free s + length (fst (split_due curr (sleeping_threads_list s))))
             (trace s ++ wake_calls (fst (split_due curr (sleeping_threads_list s))))).
Proof.
  revert s. induction fuel as [| fuel IH]; intros s Hlen; [lia |].
  cbn [wakeup_drain]. unfold bind at 1. unfold get at 1.
  destruct s as [tk lpt wn q lk il rn hp tr]. simpl in *.
  destruct q as [| e rest]; simpl.
  - unfold ret. rewrite Nat.add_0_r, app_nil_r. reflexivity.
  - destruct (wake_up_time e >? curr) eqn:E.
    + unfold ret. simpl. rewrite Nat.add_0_r, app_nil_r. reflexivity.
    + unfold bind, modify, thread_unblock, free. simpl.
      rewrite IH by (simpl in *; lia). simpl.
      destruct (split_due curr rest) as [woken left]. simpl.
      unfold wake_calls. simpl.
      repeat rewrite <- app_assoc. simpl.
      rewrite Nat.add_succ_r. reflexivity.
Qed.

(** The state a wake-up pass leaves when it runs the scan. *)
Lemma wakeup_pass_scans (s : kstate) :
  wakeup_needed s = true -> sleeper_lock s = None ->
  wakeup_pass s =
  Done tt (mk_kstate (ticks s) (loops_per_tick s) false
             (snd (split_due (ticks s) (sleeping_threads_list s)))
             None (intr s) (running s)
             (heap_free s + length (fst (split_due (ticks s) (sleeping_threads_list s))))
             (trace s ++ EvLockAcquire (running s)
                :: wake_calls (fst (split_due (ticks s) (sleeping_threads_list s)))
                ++ [EvLockRelease (running s)])).
Proof.
  intros Hneed Hlock. unfold wakeup_pass.
  unfold bind at 1. unfold get at 1. rewrite Hneed.
  unfold bind at 1. unfold modify at 1.
  unfold bind at 1. unfold lock_acquire at 1.
  cbn [sleeper_lock set_wakeup_needed]. rewrite Hlock.
  unfold bind at 1. rewrite timer_ticks_reads.
  unfold bind at 1. unfold get at 1.
  unfold bind at 1.
  rewrite wakeup_drain_result by (simpl; lia).
  unfold lock_release. simpl. rewrite Nat.eqb_refl. unfold emit. simpl.
  repeat rewrite <- app_assoc. reflexivity.
Qed.

Lemma wakeup_pass_done_inv (s s' : kstate) :
  wakeup_pass s = Done tt s' ->
  (wakeup_needed s = false /\ s' = s)
  \/ (wakeup_needed s = true /\ sleeper_lock s = None /\
      s' = mk_kstate (ticks s) (loops_per_tick s) false
             (snd (split_due (ticks s) (sleeping_threads_list s)))
             None (intr s) (running s)
             (heap_free s + length (fst (split_due (ticks s) (sleeping_threads_list s))))
             (trace s ++ EvLockAcquire (running s)
                :: wake_calls (fst (split_due (ticks s) (sleeping_threads_list s)))
                ++ [EvLockRelease (running s)])).
Proof.
  intros H. destruct (wakeup_needed s) eqn:Hneed.
  - right. destruct (sleeper_lock s) as [h |] eqn:Hlock.
    + exfalso. revert H. unfold wakeup_pass.
      unfold bind at 1. unfold get at 1. rewrite Hneed.
      unfold bind, modify, lock_acquire. cbn [sleeper_lock set_wakeup_needed].
      rewrite Hlock. discriminate.
    + rewrite (wakeup_pass_scans s Hneed Hlock) in H.
      repeat split; congruence.
  - left. rewrite (wakeup_pass_idle s Hneed) in H. split; congruence.
Qed.

Lemma unblocked_app (a b : list event) :
  unblocked (a ++ b) = unblocked a ++ unblocked b.
Proof.
  induction a as [| e a IH]; simpl; [reflexivity |].
  destruct e; simpl; rewrite IH; reflexivity.
Qed.

Lemma unblocked_wake_calls (woken : list sleeping_thread) :
  unblocked (wake_calls woken) = map t woken.
Proof.
  induction woken as [| e woken IH]; simpl; [reflexivity |].
  rewrite IH. reflexivity.
Qed.

Lemma switches_wake_calls (woken : list sleeping_thread) (tail : list event) :
  switches true (wake_calls woken ++ tail) =
  map (fun e => (EvThreadUnblock (t e), true)) woken ++ switches true tail.
Proof.
  induction woken as [| e woken IH]; simpl; [reflexivity |].
  rewrite IH. reflexivity.
Qed.

(** Every wake-up pass that returns wakes a front segment of the queue whose
    wake-up times have all been reached, and nobody else. *)
Lemma wakeup_pass_wakes_due (d d' : kstate) :
  wakeup_pass d = Done tt d' ->
  exists woken,
    sleeping_threads_list d = woken ++ sleeping_threads_list d'
    /\ Forall (fun e => wake_up_time e <= ticks d) woken
    /\ unblocked (trace d') = unblocked (trace d) ++ map t woken
    /\ exists evs, trace d' = trace d ++ evs
         /\ switches false evs = map (fun e => (EvThreadUnblock (t e), true)) woken.
Proof.
  intros H. destruct (wakeup_pass_done_inv d d' H) as [[_ ->] | [_ [_ ->]]].
  - exists []. simpl. repeat split; [constructor | now rewrite app_nil_r |].
    exists []. now rewrite app_nil_r.
  - exists (fst (split_due (ticks d) (sleeping_threads_list d))). simpl.
    split; [apply split_due_app |].
    split; [apply split_due_reached |].
    split.
    + rewrite unblocked_app. f_equal. simpl. rewrite unblocked_app.
      rewrite unblocked_wake_calls. simpl. now rewrite app_nil_r.
    + eexists. split; [reflexivity |]. simpl.
      rewrite switches_wake_calls. simpl. now rewrite app_nil_r.
Qed.

Lemma in_list_insert_ordered {A} (l : list A) (x : A) (less : A -> A -> bool) :
  In x (list_insert_ordered l x less).
Proof.
  induction l as [| e rest IH]; simpl.
  - left; reflexivity.
  - destruct (less x e); simpl; auto.
Qed.

Lemma sorted_by_wake_tail (a : sleeping_thread) (l : list sleeping_thread) :
  sorted_by_wake (a :: l) -> sorted_by_wake l.
Proof. destruct l as [| b l]; simpl; tauto. Qed.

Lemma sorted_by_wake_head (a : sleeping_thread) (l : list sleeping_thread) :
  sorted_by_wake (a :: l) ->
  Forall (fun y => wake_up_time a <= wake_up_time y) l.
Proof.
  revert a. induction l as [| b l IH]; intros a H.
  - constructor.
  - destruct H as [Hab Hrest]. constructor; [exact Hab |].
    specialize (IH b Hrest).
    eapply Forall_impl; [| exact IH]. simpl. intros y Hy. lia.
Qed.

Lemma sorted_by_wake_app_r (a b : list sleeping_thread) :
  sorted_by_wake (a ++ b) -> sorted_by_wake b.
Proof.
  induction a as [| x a IH]; simpl app; intros H; [exact H |].
  apply IH. exact (sorted_by_wake_tail x (a ++ b) H).
Qed.

Lemma split_due_left_later (curr : Z) (q : list sleeping_thread) :
  sorted_by_wake q ->
  Forall (fun e => curr < wake_up_time e) (snd (split_due curr q)).
Proof.
  induction q as [| e rest IH]; intros Hs; simpl.
  - constructor.
  - destruct (wake_up_time e >? curr) eqn:E.
    + rewrite Z.gtb_ltb in E. apply Z.ltb_lt in E. simpl.
      constructor; [exact E |].
      eapply Forall_impl; [| exact (sorted_by_wake_head e rest Hs)].
      simpl. intros y Hy. lia.
    + specialize (IH (sorted_by_wake_tail e rest Hs)).
      destruct (split_due curr rest) as [woken left]. exact IH.
Qed.

(** A pass that runs the scan on a sorted queue wakes every entry whose
    wake-up time has been reached. *)
Lemma wakeup_pass_wakes_all_due (d d' : kstate) (st : sleeping_thread) :
  wakeup_needed d = true ->
  sorted_by_wake (sleeping_threads_list d) ->
  wakeup_pass d = Done tt d' ->
  In st (sleeping_threads_list d) ->
  wake_up_time st <= ticks d ->
  In (t st) (unblocked (trace d')) /\ ~ In st (sleeping_threads_list d').
Proof.
  intros Hneed Hs Hpass Hin Hdue.
  destruct (wakeup_pass_done_inv d d' Hpass) as [[Hidle _] | [_ [_ ->]]];
    [congruence |].
  pose proof (split_due_left_later (ticks d) _ Hs) as Hleft.
  rewrite Forall_forall in Hleft. simpl.
  assert (Hnot : ~ In st (snd (split_due (ticks d) (sleeping_threads_list d)))).
  { intros Hl. specialize (Hleft st Hl). lia. }
  split; [| exact Hnot].
  rewrite (split_due_app (ticks d) (sleeping_threads_list d)) in Hin.
  apply in_app_or in Hin. destruct Hin as [Hw | Hl]; [| contradiction].
  rewrite unblocked_app. apply in_or_app. right. simpl.
  rewrite unblocked_app, unblocked_wake_calls. apply in_or_app. left.
  now apply in_map.
Qed.

(** What holds of the two ends taken apart: [timer_sleep n] with n > 0
    queues the caller with wake-up time [ticks + n], and a wake-up pass, if
    one ever scans, unblocks only owners of entries whose tick has come. *)
Lemma sleep_entry_and_scan_safety (n : Z) (s : kstate) :
  0 < n -> in_int64 (ticks s + n) ->
  sleeper_lock s = None -> heap_free s <> 0%nat ->
  let st := mk_sleeping_thread (running s) (ticks s + n) in
  (exists s', timer_sleep n s = Done tt s'
     /\ sleeping_threads_list s' = sleep_enqueue (sleeping_threads_list s) st
     /\ In st (sleeping_threads_list s'))
  /\ forall d d' : kstate, wakeup_pass d = Done tt d' ->
       (exists woken,
           sleeping_threads_list d = woken ++ sleeping_threads_list d'
           /\ Forall (fun e => wake_up_time e <= ticks d) woken
           /\ unblocked (trace d') = unblocked (trace d) ++ map t woken)
       /\ (In st (sleeping_threads_list d) -> ticks d < wake_up_time st ->
           In st (sleeping_threads_list d'))
       /\ (In st (sleeping_threads_list d) -> wake_up_time st <= ticks d ->
           wakeup_needed d = true -> sorted_by_wake (sleeping_threads_list d) ->
           In (t st) (unblocked (trace d'))).
Proof.
  intros Hn Hsum Hlock Hheap st. split.
  - destruct (heap_free s) as [| k] eqn:Hk; [contradiction |].
    eexists. split; [apply (timer_sleep_queues n s k Hn Hlock Hk) |].
    simpl. unfold add64. rewrite (wrap64_id _ Hsum). fold st.
    split; [reflexivity |].
    rewrite sleep_enqueue_uniform. apply in_list_insert_ordered.
  - intros d d' Hpass.
    destruct (wakeup_pass_wakes_due d d' Hpass) as [woken [Hq [Hdue [Hun _]]]].
    split; [| split].
    + exists woken. auto.
    + intros Hin Hlt. rewrite Hq in Hin. apply in_app_or in Hin.
      destruct Hin as [Hin | Hin]; [| exact Hin].
      rewrite Forall_forall in Hdue. specialize (Hdue st Hin). lia.
    + intros Hin Hreached Hneed Hs.
      exact (proj1 (wakeup_pass_wakes_all_due d d' st Hneed Hs Hpass Hin Hreached)).
Qed.

(** ** Order of the sleep queue *)

Lemma sorted_by_wake_indexed (l : list sleeping_thread) (d : sleeping_thread) :
  sorted_by_wake l ->
  forall i : nat, (S i < length l)%nat ->
    wake_up_time (nth i l d) <= wake_up_time (nth (S i) l d).
Proof.
  induction l as [| a l IH]; intros Hs i Hi; simpl in Hi; [lia |].
  destruct l as [| b l]; simpl in Hi; [lia |].
  destruct Hs as [Hab Hrest].
  destruct i as [| i].
  - exact Hab.
  - change (wake_up_time (nth i (b :: l) d) <= wake_up_time (nth (S i) (b :: l) d)).
    apply IH; [exact Hrest | simpl; lia].
Qed.

Lemma list_insert_ordered_sorted (q : list sleeping_thread) (st : sleeping_thread) :
  sorted_by_wake q ->
  sorted_by_wake (list_insert_ordered q st compare_wake_up_time).
Proof.
  unfold compare_wake_up_time.
  induction q as [| a q IH]; intros Hs; [exact I |].
  cbn [list_insert_ordered].
  destruct (wake_up_time st <? wake_up_time a) eqn:E.
  - apply Z.ltb_lt in E. split; [lia | exact Hs].
  - apply Z.ltb_ge in E.
    specialize (IH (sorted_by_wake_tail a q Hs)).
    destruct q as [| b q].
    + simpl. split; [exact E | exact I].
    + destruct Hs as [Hab Hrest].
      cbn [list_insert_ordered] in *.
      destruct (wake_up_time st <? wake_up_time b) eqn:E2.
      * split; [exact E | exact IH].
      * split; [exact Hab | exact IH].
Qed.

Lemma waking_at_none (w : Z) (l : list sleeping_thread) :
  Forall (fun y => w < wake_up_time y) l -> waking_at w l = [].
Proof.
  induction 1 as [| y l Hy _ IH]; [reflexivity |].
  unfold waking_at in *. simpl. rewrite IH.
  destruct (wake_up_time y =? w) eqn:E; [apply Z.eqb_eq in E; lia | reflexivity].
Qed.

Lemma waking_at_app (w : Z) (a b : list sleeping_thread) :
  waking_at w (a ++ b) = waking_at w a ++ waking_at w b.
Proof. apply filter_app. Qed.

Lemma waking_at_cons (w : Z) (x : sleeping_thread) (l : list sleeping_thread) :
  waking_at w (x :: l) =
  if wake_up_time x =? w then x :: waking_at w l else waking_at w l.
Proof. reflexivity. Qed.

(** Ordered insertion puts the new entry behind every queued entry with the
    same wake-up time and moves nothing else. *)
Lemma waking_at_list_insert_ordered (w : Z) (q : list sleeping_thread)
      (st : sleeping_thread) :
  sorted_by_wake q ->
  waking_at w (list_insert_ordered q st compare_wake_up_time) =
  if wake_up_time st =? w then waking_at w q ++ [st] else waking_at w q.
Proof.
  induction q as [| a q IH]; intros Hs.
  - cbn [list_insert_ordered]. rewrite waking_at_cons.
    destruct (wake_up_time st =? w); reflexivity.
  - cbn [list_insert_ordered]. unfold compare_wake_up_time at 1.
    destruct (wake_up_time st <? wake_up_time a) eqn:E.
    + apply Z.ltb_lt in E. rewrite waking_at_cons.
      destruct (wake_up_time st =? w) eqn:Ew; [| reflexivity].
      apply Z.eqb_eq in Ew.
      rewrite (waking_at_none w (a :: q)); [reflexivity |].
      constructor; [lia |].
      eapply Forall_impl; [| exact (sorted_by_wake_head a q Hs)].
      simpl. intros y Hy. lia.
    + specialize (IH (sorted_by_wake_tail a q Hs)).
      rewrite waking_at_cons, IH, (waking_at_cons w a q).
      destruct (wake_up_time st =? w), (wake_up_time a =? w); reflexivity.
Qed.

Lemma queue_in_order_same (q requested : list sleeping_thread) :
  queue_in_order q requested -> queue_in_order q (requested ++ []).
Proof. now rewrite app_nil_r. Qed.

Lemma queue_in_order_insert (q requested : list sleeping_thread)
      (st : sleeping_thread) :
  queue_in_order q requested ->
  queue_in_order (sleep_enqueue q st) (requested ++ [st]).
Proof.
  intros [Hs Hf]. rewrite sleep_enqueue_uniform. split.
  - apply list_insert_ordered_sorted. exact Hs.
  - intros w. destruct (Hf w) as [earlier He]. exists earlier.
    rewrite waking_at_app, (waking_at_list_insert_ordered w q st Hs), He.
    rewrite waking_at_cons. simpl.
    destruct (wake_up_time st =? w).
    + now rewrite app_assoc.
    + now rewrite app_nil_r.
Qed.

Lemma queue_in_order_pop (woken left requested : list sleeping_thread) :
  queue_in_order (woken ++ left) requested -> queue_in_order left requested.
Proof.
  intros [Hs Hf]. split.
  - exact (sorted_by_wake_app_r woken left Hs).
  - intros w. destruct (Hf w) as [earlier He].
    exists (earlier ++ waking_at w woken).
    rewrite He, waking_at_app. now rewrite app_assoc.
Qed.

Lemma step_keeps_order (o : op) (s s1 : kstate) (requested : list sleeping_thread) :
  step o s = Done tt s1 ->
  queue_in_order (sleeping_threads_list s) requested ->
  queue_in_order (sleeping_threads_list s1) (requested ++ step_request o s).
Proof.
  intros Hstep Hinv. destruct o as [| | who n |]; cbn [step step_request] in *.
  - inversion Hstep; subst. simpl. now apply queue_in_order_same.
  - inversion Hstep; subst. simpl. now apply queue_in_order_same.
  - change ((modify (set_running who) ;; timer_sleep n) s)
      with (timer_sleep n (set_running who s)) in Hstep.
    destruct (timer_sleep_done_inv n _ s1 Hstep)
      as [[Hn ->] | [Hn [_ [k [_ ->]]]]].
    + destruct (0 <? n) eqn:E; [apply Z.ltb_lt in E; lia |].
      simpl. now apply queue_in_order_same.
    + destruct (0 <? n) eqn:E; [| apply Z.ltb_ge in E; lia].
      simpl. now apply queue_in_order_insert.
  - destruct (wakeup_pass_wakes_due s s1 Hstep) as [woken [Hq _]].
    rewrite Hq in Hinv. apply queue_in_order_same.
    exact (queue_in_order_pop woken _ requested Hinv).
Qed.

Lemma run_keeps_order (ops : list op) (s s' : kstate)
      (requested : list sleeping_thread) :
  run ops s = Done tt s' ->
  queue_in_order (sleeping_threads_list s) requested ->
  queue_in_order (sleeping_threads_list s') (requested ++ requests ops s).
Proof.
  revert s requested. induction ops as [| o ops IH]; intros s requested Hrun Hinv.
  - inversion Hrun; subst. simpl. now apply queue_in_order_same.
  - cbn [run] in Hrun. apply bind_done in Hrun.
    destruct Hrun as [[] [s1 [Hstep Hrest]]].
    cbn [requests]. rewrite Hstep. rewrite app_assoc.
    apply (IH s1); [exact Hrest |].
    exact (step_keeps_order o s s1 requested Hstep Hinv).
Qed.

(** C2: after any run of [timer_sleep] calls, ticks and wake-up passes that
    starts with an empty queue, neighbouring entries of the sleep queue have
    ascending wake-up times, and for every wake-up time the queued entries
    of that time are the latest requests for it, in the order the requests
    were made. *)
Theorem sleep_queue_sorted_fifo (ops : list op) (s0 s : kstate) :
  sleeping_threads_list s0 = [] ->
  run ops s0 = Done tt s ->
  (forall (i : nat) (d : sleeping_thread),
      (S i < length (sleeping_threads_list s))%nat ->
      wake_up_time (nth i (sleeping_threads_list s) d)
      <= wake_up_time (nth (S i) (sleeping_threads_list s) d))
  /\ (forall w : Z, exists earlier,
         waking_at w (requests ops s0)
         = earlier ++ waking_at w (sleeping_threads_list s)).
Proof.
  intros Hempty Hrun.
  assert (Hinit : queue_in_order (sleeping_threads_list s0) []).
  { rewrite Hempty. split; [exact I | intros w; exists []; reflexivity]. }
  destruct (run_keeps_order ops s0 s [] Hrun Hinit) as [Hs Hf].
  split.
  - intros i d Hi. now apply sorted_by_wake_indexed.
  - exact Hf.
Qed.

Lemma sleep_queue_sorted_fifo_witness :
  sleeping_threads_list idle_state = []
  /\ exists s,
       run sample_run idle_state = Done tt s
       /\ sleeping_threads_list s =
            [mk_sleeping_thread 2%nat 13; mk_sleeping_thread 1%nat 15;
             mk_sleeping_thread 3%nat 15]
       /\ (forall w : Z, exists earlier,
              waking_at w (requests sample_run idle_state)
              = earlier ++ waking_at w (sleeping_threads_list s)).
Proof.
  split; [reflexivity |].
  eexists.
  assert (Hrun : run sample_run idle_state = Done tt _) by (vm_compute; reflexivity).
  split; [exact Hrun |]. split; [reflexivity |].
  exact (proj2 (sleep_queue_sorted_fifo sample_run idle_state _ eq_refl Hrun)).
Defined.

(** ** Durations *)

Lemma quot_in_int64 (x d : Z) : in_int64 x -> 0 < d -> in_int64 (Z.quot x d).
Proof.
  unfold in_int64, INT64_MIN, INT64_MAX. intros Hx Hd.
  destruct (Z_le_gt_dec 0 x) as [Hpos | Hneg].
  - rewrite Z.quot_div_nonneg by lia.
    pose proof (Z.div_pos x d Hpos Hd). pose proof (Z.mul_div_le x d Hd). nia.
  - replace x with (- (- x)) by lia. rewrite Z.quot_opp_l by lia.
    rewrite Z.quot_div_nonneg by lia.
    pose proof (Z.div_pos (- x) d ltac:(lia) Hd).
    pose proof (Z.mul_div_le (- x) d Hd). nia.
Qed.

Lemma real_time_ticks_quot (F num denom : Z) :
  in_int64 (num * F) -> 0 < denom ->
  real_time_ticks F num denom = Z.quot (num * F) denom.
Proof.
  intros Hx Hd. unfold real_time_ticks, div64, mul64.
  rewrite (wrap64_id _ Hx). apply wrap64_id. now apply quot_in_int64.
Qed.

Lemma real_time_sleep_routes (F num denom : Z) (s : kstate) :
  intr s = INTR_ON ->
  real_time_sleep F num denom s =
  if real_time_ticks F num denom >? 0
  then timer_sleep (real_time_ticks F num denom) s
  else real_time_delay F num denom s.
Proof.
  intros Hon. unfold real_time_sleep, bind, intr_get_level, get.
  rewrite Hon. simpl.
  destruct (real_time_ticks F num denom >? 0); reflexivity.
Qed.

(** ** Calibration *)

Lemma too_many_loops_total (arrives : nat -> Z -> bool) (n : nat) (loops : Z)
      (s : kstate) :
  exists b s1,
    too_many_loops arrives n loops s = Done b s1
    /\ loops_per_tick s1 = loops_per_tick s.
Proof.
  unfold too_many_loops, bind, modify, get, busy_wait, ret. simpl.
  destruct (arrives n loops); simpl; eexists; eexists; split; reflexivity.
Qed.

Lemma lor_grows (a b : Z) : 0 <= b -> a <= Z.lor a b.
Proof.
  intros Hb. pose proof (Z.sub_lor_l_same_l b a) as H.
  assert (0 <= Z.land b (Z.lnot a)) by (apply Z.land_nonneg; left; exact Hb).
  lia.
Qed.

(** The part of C8 that holds: no step of the refinement loop lowers
    [loops_per_tick]. *)
Lemma calibrate_refine_never_decreases (arrives : nat -> Z -> bool)
      (fuel n : nat) (high_bit test_bit : Z) (s s' : kstate) (r : nat) :
  0 <= test_bit ->
  calibrate_refine arrives fuel n high_bit test_bit s = Done r s' ->
  loops_per_tick s <= loops_per_tick s'.
Proof.
  revert n test_bit s. induction fuel as [| fuel IH]; intros n test_bit s Hb Hrun.
  - discriminate Hrun.
  - cbn [calibrate_refine] in Hrun.
    destruct (test_bit =? shru32 high_bit 10).
    + inversion Hrun; subst. lia.
    + apply bind_done in Hrun. destruct Hrun as [lpt [s0 [Hget Hrun]]].
      inversion Hget; subst lpt s0. clear Hget.
      apply bind_done in Hrun. destruct Hrun as [many [s1 [Hmeasure Hrun]]].
      destruct (too_many_loops_total arrives n
                  (oru32 (loops_per_tick s) test_bit) s) as [b [s1' [E Hl]]].
      rewrite E in Hmeasure. inversion Hmeasure; subst b s1'. clear Hmeasure.
      apply bind_done in Hrun. destruct Hrun as [[] [s2 [Hupd Hrun]]].
      assert (Hnext : 0 <= shru32 test_bit 1)
        by (unfold shru32; apply Z.shiftr_nonneg; exact Hb).
      specialize (IH _ _ _ Hnext Hrun).
      destruct many; inversion Hupd; subst s2; simpl in IH.
      * lia.
      * unfold oru32 in IH. pose proof (lor_grows (loops_per_tick s1) test_bit Hb).
        lia.
Qed.

Lemma shru32_pow2 (a b : Z) : 0 <= b <= a -> shru32 (2 ^ a) b = 2 ^ (a - b).
Proof.
  intros H. unfold shru32. rewrite Z.shiftr_div_pow2 by lia.
  symmetry. apply Z.pow_sub_r; lia.
Qed.

(** Whatever the machine answers, the refinement loop started below a
    leading bit [2 ^ k] takes nine measurements: [m] of them are left when
    the test bit is [2 ^ (k - 10 + m)]. *)
Lemma calibrate_refine_measurements (arrives : nat -> Z -> bool) (k : Z)
      (m fuel n : nat) (s : kstate) :
  10 <= k -> (m < fuel)%nat ->
  exists s',
    calibrate_refine arrives fuel n (2 ^ k) (2 ^ (k - 10 + Z.of_nat m)) s
    = Done (n + m)%nat s'.
Proof.
  intros Hk. revert fuel n s.
  induction m as [| m IH]; intros fuel n s Hfuel;
    (destruct fuel as [| fuel]; [lia |]); cbn [calibrate_refine];
    rewrite (shru32_pow2 k 10) by lia.
  - replace (k - 10 + Z.of_nat 0) with (k - 10) by lia.
    rewrite Z.eqb_refl. exists s. unfold ret. f_equal. lia.
  - destruct (2 ^ (k - 10 + Z.of_nat (S m)) =? 2 ^ (k - 10)) eqn:E.
    + apply Z.eqb_eq in E. apply Z.pow_inj_r in E; lia.
    + unfold bind at 1. unfold get at 1. unfold bind at 1.
      destruct (too_many_loops_total arrives n
                  (oru32 (loops_per_tick s) (2 ^ (k - 10 + Z.of_nat (S m)))) s)
        as [b [s1 [Hm _]]].
      rewrite Hm. unfold bind at 1.
      rewrite (shru32_pow2 (k - 10 + Z.of_nat (S m)) 1) by lia.
      replace (k - 10 + Z.of_nat (S m) - 1) with (k - 10 + Z.of_nat m) by lia.
      replace (n + S m)%nat with (S n + m)%nat by lia.
      destruct b; simpl; apply IH; lia.
Qed.

Lemma calibrate_refine_nine (arrives : nat -> Z -> bool) (k : Z) (n : nat)
      (s : kstate) :
  10 <= k ->
  exists s',
    calibrate_refine arrives 32 n (2 ^ k) (shru32 (2 ^ k) 1) s
    = Done (n + 9)%nat s'.
Proof.
  intros Hk. rewrite (shru32_pow2 k 1) by lia.
  replace (k - 1) with (k - 10 + Z.of_nat 9) by lia.
  apply calibrate_refine_measurements; [exact Hk | lia].
Qed.

(** C8 (fails on the count of bits): on a machine whose first measurement
    overruns, the search stops at the leading bit 1024 and the refinement
    loop then measures with each of the nine bits 512, 256, ..., 2 in turn,
    one more than the eight its comment announces: [loops_per_tick] ends as
    2046, with bit [1024 >> 9] set. *)
Theorem timer_calibrate_refines_nine_bits :
  timer_calibrate first_overruns 32 idle_state =
    Done tt (mk_kstate 21 2046 false [] None INTR_ON 7%nat 4%nat
               [EvBusyWait 2048;
                EvBusyWait 1536; EvBusyWait 1792; EvBusyWait 1920;
                EvBusyWait 1984; EvBusyWait 2016; EvBusyWait 2032;
                EvBusyWait 2040; EvBusyWait 2044; EvBusyWait 2046])
  /\ Z.land 2046 (Z.shiftr 1024 9) = 2
  /\ 2046 = Z.lor 1024 (Z.lor 512 (Z.lor 256 (Z.lor 128 (Z.lor 64 (Z.lor 32
              (Z.lor 16 (Z.lor 8 (Z.lor 4 2)))))))).
Proof.
  split; [vm_compute; reflexivity |].
  split; reflexivity.
Qed.


(** * Further properties of timer.c *)

(** ** Outcomes of timer_sleep *)

Lemma timer_sleep_lock_held (n : Z) (s : kstate) (h : thread) :
  0 < n -> sleeper_lock s = Some h -> timer_sleep n s = Waits s.
Proof.
  intros Hn Hlock. unfold timer_sleep.
  destruct (n <=? 0) eqn:E; [apply Z.leb_le in E; lia |].
  unfold bind at 1. rewrite timer_ticks_reads.
  unfold bind, lock_acquire. rewrite Hlock. reflexivity.
Qed.

Lemma timer_sleep_no_block_left (n : Z) (s : kstate) :
  0 < n -> sleeper_lock s = None -> heap_free s = 0%nat ->
  timer_sleep n s =
  Fatal (mk_kstate (ticks s) (loops_per_tick s) (wakeup_needed s)
           (sleeping_threads_list s) (Some (running s)) (intr s) (running s) 0
           (trace s ++ [EvLockAcquire (running s); EvMalloc])).
Proof.
  intros Hn Hlock Hheap. unfold timer_sleep.
  destruct (n <=? 0) eqn:E; [apply Z.leb_le in E; lia |].
  unfold bind at 1. rewrite timer_ticks_reads.
  unfold bind, lock_acquire, malloc, panic. rewrite Hlock. simpl.
  rewrite Hheap. simpl. unfold emit. simpl.
  repeat rewrite <- app_assoc. rewrite Hheap. reflexivity.
Qed.

(** X2: when [malloc] returns NULL, [timer_sleep] panics after it has taken
    the sleeper lock: the kernel stops with the lock held by the caller, the
    queue as it was and no call to [thread_block]. *)
Theorem timer_sleep_panics_holding_lock (n : Z) (s : kstate) :
  0 < n -> sleeper_lock s = None -> heap_free s = 0%nat ->
  exists s',
    timer_sleep n s = Fatal s'
    /\ sleeper_lock s' = Some (running s)
    /\ sleeping_threads_list s' = sleeping_threads_list s
    /\ trace s' = trace s ++ [EvLockAcquire (running s); EvMalloc].
Proof.
  intros Hn Hlock Hheap. eexists.
  split; [apply (timer_sleep_no_block_left n s Hn Hlock Hheap) |].
  simpl. auto.
Qed.

Lemma timer_sleep_panics_holding_lock_witness :
  0 < 5 /\ sleeper_lock exhausted_state = None
  /\ heap_free exhausted_state = 0%nat
  /\ exists s',
       timer_sleep 5 exhausted_state = Fatal s'
       /\ sleeper_lock s' = Some 3%nat.
Proof.
  assert (H1 : 0 < 5) by lia.
  split; [exact H1 |]. split; [reflexivity |]. split; [reflexivity |].
  destruct (timer_sleep_panics_holding_lock 5 exhausted_state H1 eq_refl eq_refl)
    as [s' [Hrun [Hlock _]]].
  exists s'. split; [exact Hrun | exact Hlock].
Defined.

(** ** Outcomes of a wake-up pass *)

Lemma wakeup_pass_lock_held (s : kstate) (h : thread) :
  wakeup_needed s = true -> sleeper_lock s = Some h ->
  wakeup_pass s = Waits (set_wakeup_needed false s).
Proof.
  intros Hneed Hlock. unfold wakeup_pass.
  unfold bind at 1. unfold get at 1. rewrite Hneed.
  unfold bind, modify, lock_acquire. cbn [sleeper_lock set_wakeup_needed].
  rewrite Hlock. reflexivity.
Qed.

(** X3: a wake-up pass never panics and never overruns its loop. It fails
    to return only when the sleeper lock is held, and by then it has cleared
    [wakeup_needed] although nothing was scanned: the queue is as it was and
    nobody was unblocked. *)
Theorem wakeup_pass_outcomes (s : kstate) :
  (sleeper_lock s = None \/ wakeup_needed s = false ->
   returns (wakeup_pass s) = true)
  /\ (forall h, sleeper_lock s = Some h -> wakeup_needed s = true ->
        exists s',
          wakeup_pass s = Waits s'
          /\ wakeup_needed s' = false
          /\ sleeping_threads_list s' = sleeping_threads_list s
          /\ trace s' = trace s).
Proof.
  split.
  - intros H. destruct (wakeup_needed s) eqn:Hneed.
    + destruct H as [Hlock | Hoff]; [| discriminate].
      rewrite (wakeup_pass_scans s Hneed Hlock). reflexivity.
    + rewrite (wakeup_pass_idle s Hneed). reflexivity.
  - intros h Hlock Hneed. exists (set_wakeup_needed false s).
    split; [apply (wakeup_pass_lock_held s h Hneed Hlock) |].
    simpl. auto.
Qed.

Lemma wakeup_pass_outcomes_witness :
  sleeper_lock contended_state = Some 2%nat
  /\ wakeup_needed contended_state = true
  /\ exists s',
       wakeup_pass contended_state = Waits s'
       /\ wakeup_needed s' = false
       /\ sleeping_threads_list s' = [mk_sleeping_thread 1%nat 5].
Proof.
  split; [reflexivity |]. split; [reflexivity |].
  destruct (proj2 (wakeup_pass_outcomes contended_state) 2%nat eq_refl eq_refl)
    as [s' [Hrun [Hflag [Hq _]]]].
  exists s'. split; [exact Hrun |]. split; [exact Hflag | exact Hq].
Defined.

Lemma split_due_head_later (curr : Z) (q : list sleeping_thread) :
  match snd (split_due curr q) with
  | [] => True
  | e :: _ => curr < wake_up_time e
  end.
Proof.
  induction q as [| e rest IH]; simpl; [exact I |].
  destruct (wake_up_time e >? curr) eqn:E.
  - simpl. rewrite Z.gtb_ltb in E. now apply Z.ltb_lt in E.
  - destruct (split_due curr rest) as [woken left]. exact IH.
Qed.

Lemma split_due_again (curr : Z) (q : list sleeping_thread) :
  split_due curr (snd (split_due curr q)) = ([], snd (split_due curr q)).
Proof.
  pose proof (split_due_head_later curr q) as H.
  destruct (snd (split_due curr q)) as [| e rest]; [reflexivity |].
  simpl. destruct (wake_up_time e >? curr) eqn:E; [reflexivity |].
  rewrite Z.gtb_ltb, Z.ltb_ge in E. lia.
Qed.

(** X4: a pass that scans (flag set, lock free) returns with the lock free
    again, the flag cleared, the tick counter untouched and a queue whose
    first entry, if any, is not due yet. If the flag is raised again within
    the same tick, the next pass wakes nobody and leaves the queue as it
    is. *)
Theorem wakeup_pass_settles (d : kstate) :
  wakeup_needed d = true -> sleeper_lock d = None ->
  exists d',
    wakeup_pass d = Done tt d'
    /\ sleeper_lock d' = None /\ wakeup_needed d' = false
    /\ ticks d' = ticks d
    /\ match sleeping_threads_list d' with
       | [] => True
       | e :: _ => ticks d < wake_up_time e
       end
    /\ exists d'',
         wakeup_pass (set_wakeup_needed true d') = Done tt d''
         /\ sleeping_threads_list d'' = sleeping_threads_list d'
         /\ unblocked (trace d'') = unblocked (trace d').
Proof.
  intros Hneed Hlock. eexists.
  split; [apply (wakeup_pass_scans d Hneed Hlock) |].
  cbn [sleeper_lock wakeup_needed ticks sleeping_threads_list].
  split; [reflexivity |]. split; [reflexivity |]. split; [reflexivity |].
  split; [apply split_due_head_later |].
  eexists. split; [apply wakeup_pass_scans; reflexivity |].
  cbn [sleeping_threads_list set_wakeup_needed ticks trace].
  rewrite split_due_again. simpl. split; [reflexivity |].
  rewrite unblocked_app. simpl. now rewrite app_nil_r.
Qed.

Lemma wakeup_pass_settles_witness :
  wakeup_needed due_state = true /\ sleeper_lock due_state = None
  /\ exists d',
       wakeup_pass due_state = Done tt d'
       /\ sleeper_lock d' = None /\ wakeup_needed d' = false.
Proof.
  split; [reflexivity |]. split; [reflexivity |].
  destruct (wakeup_pass_settles due_state eq_refl eq_refl)
    as [d' [Hrun [Hlock [Hflag _]]]].
  exists d'. split; [exact Hrun |]. split; [exact Hlock | exact Hflag].
Defined.

(** ** Insertion keeps every entry *)

Lemma list_insert_ordered_permutation {A} (l : list A) (x : A)
      (less : A -> A -> bool) :
  Permutation (list_insert_ordered l x less) (x :: l).
Proof.
  induction l as [| e rest IH]; simpl.
  - apply Permutation_refl.
  - destruct (less x e).
    + apply Permutation_refl.
    + eapply Permutation_trans; [apply perm_skip; exact IH | apply perm_swap].
Qed.

(** X5: linking a new entry into the sleep queue, sorted or not, adds that
    entry and keeps all the others: the new queue is a rearrangement of the
    old one plus the entry, one longer. *)
Theorem sleep_enqueue_keeps_entries (q : list sleeping_thread)
        (st : sleeping_thread) :
  Permutation (sleep_enqueue q st) (st :: q)
  /\ length (sleep_enqueue q st) = S (length q).
Proof.
  rewrite sleep_enqueue_uniform.
  pose proof (list_insert_ordered_permutation q st compare_wake_up_time) as H.
  split; [exact H |].
  apply Permutation_length in H. exact H.
Qed.

(** ** Blocks of the allocator *)

Lemma sleep_enqueue_length (q : list sleeping_thread) (st : sleeping_thread) :
  length (sleep_enqueue q st) = S (length q).
Proof.
  rewrite sleep_enqueue_uniform.
  exact (Permutation_length
           (list_insert_ordered_permutation q st compare_wake_up_time)).
Qed.

Lemma step_keeps_blocks (o : op) (s s1 : kstate) :
  step o s = Done tt s1 ->
  (heap_free s1 + length (sleeping_threads_list s1)
   = heap_free s + length (sleeping_threads_list s))%nat.
Proof.
  intros Hstep. destruct o as [| | who n |]; cbn [step] in Hstep.
  - inversion Hstep; subst. reflexivity.
  - inversion Hstep; subst. reflexivity.
  - change ((modify (set_running who) ;; timer_sleep n) s)
      with (timer_sleep n (set_running who s)) in Hstep.
    destruct (timer_sleep_done_inv n _ s1 Hstep)
      as [[_ ->] | [_ [_ [k [Hk ->]]]]].
    + reflexivity.
    + cbn [heap_free sleeping_threads_list set_running] in *.
      rewrite sleep_enqueue_length, Hk. lia.
  - destruct (wakeup_pass_done_inv s s1 Hstep) as [[_ ->] | [_ [_ ->]]].
    + reflexivity.
    + cbn [heap_free sleeping_threads_list].
      rewrite (split_due_app (ticks s) (sleeping_threads_list s)) at 3.
      rewrite length_app. lia.
Qed.

(** X6: no block is leaked. Over any run of ticks, [timer_sleep] calls and
    wake-up passes, every block taken by [malloc] in [timer_sleep] is either
    still linked in the sleep queue or has been given back by [free] in the
    scan: free blocks plus queued entries stay constant. *)
Theorem run_keeps_blocks (ops : list op) (s s' : kstate) :
  run ops s = Done tt s' ->
  (heap_free s' + length (sleeping_threads_list s')
   = heap_free s + length (sleeping_threads_list s))%nat.
Proof.
  revert s. induction ops as [| o ops IH]; intros s Hrun.
  - inversion Hrun; subst. reflexivity.
  - cbn [run] in Hrun. apply bind_done in Hrun.
    destruct Hrun as [[] [s1 [Hstep Hrest]]].
    rewrite (IH s1 Hrest). exact (step_keeps_blocks o s s1 Hstep).
Qed.

Lemma run_keeps_blocks_witness :
  exists s',
    run sample_run idle_state = Done tt s'
    /\ (heap_free s' + length (sleeping_threads_list s') = 4 + 0)%nat.
Proof.
  eexists.
  assert (Hrun : run sample_run idle_state = Done tt _) by (vm_compute; reflexivity).
  split; [exact Hrun |].
  exact (run_keeps_blocks sample_run idle_state _ Hrun).
Defined.

(** ** Every request is accounted for *)

Lemma accounted_same (q requested woken : list sleeping_thread) :
  accounted q requested woken -> accounted q (requested ++ []) (woken ++ []).
Proof. now rewrite !app_nil_r. Qed.

Lemma accounted_insert (q requested woken : list sleeping_thread)
      (st : sleeping_thread) :
  accounted q requested woken ->
  accounted (sleep_enqueue q st) (requested ++ [st]) (woken ++ []).
Proof.
  intros [Hs [Hp Hf]]. rewrite app_nil_r, sleep_enqueue_uniform.
  split; [apply list_insert_ordered_sorted; exact Hs |]. split.
  - eapply Permutation_trans;
      [apply Permutation_sym, Permutation_cons_append |].
    eapply Permutation_trans; [apply perm_skip; exact Hp |].
    eapply Permutation_trans; [apply Permutation_middle |].
    apply Permutation_app_head, Permutation_sym,
      list_insert_ordered_permutation.
  - intros w.
    rewrite waking_at_app, (waking_at_list_insert_ordered w q st Hs), Hf.
    rewrite waking_at_cons. simpl.
    destruct (wake_up_time st =? w).
    + now rewrite app_assoc.
    + now rewrite app_nil_r.
Qed.

Lemma accounted_pop (head left requested woken : list sleeping_thread) :
  accounted (head ++ left) requested woken ->
  accounted left requested (woken ++ head).
Proof.
  intros [Hs [Hp Hf]].
  split; [exact (sorted_by_wake_app_r head left Hs) |]. split.
  - now rewrite <- app_assoc.
  - intros w. rewrite Hf, !waking_at_app. now rewrite app_assoc.
Qed.

Lemma unblocked_emit_other (s : kstate) (e : event) :
  unblocked [e] = [] -> unblocked (trace (emit e s)) = unblocked (trace s).
Proof.
  intros H. simpl. rewrite unblocked_app, H. apply app_nil_r.
Qed.

Lemma step_accounts (o : op) (s s1 : kstate)
      (requested woken : list sleeping_thread) :
  step o s = Done tt s1 ->
  accounted (sleeping_threads_list s) requested woken ->
  exists head,
    unblocked (trace s1) = unblocked (trace s) ++ map t head
    /\ Forall (fun e => wake_up_time e <= ticks s) head
    /\ accounted (sleeping_threads_list s1)
         (requested ++ step_request o s) (woken ++ head).
Proof.
  intros Hstep Hacc. destruct o as [| | who n |]; cbn [step step_request] in *.
  - inversion Hstep; subst. exists []. simpl.
    split; [rewrite unblocked_app; reflexivity |].
    split; [constructor | now apply accounted_same].
  - inversion Hstep; subst. exists []. simpl.
    split; [now rewrite app_nil_r |].
    split; [constructor | now apply accounted_same].
  - change ((modify (set_running who) ;; timer_sleep n) s)
      with (timer_sleep n (set_running who s)) in Hstep.
    destruct (timer_sleep_done_inv n _ s1 Hstep)
      as [[Hn ->] | [Hn [_ [k [_ ->]]]]].
    + destruct (0 <? n) eqn:E; [apply Z.ltb_lt in E; lia |].
      exists []. simpl. split; [now rewrite app_nil_r |].
      split; [constructor | now apply accounted_same].
    + destruct (0 <? n) eqn:E; [| apply Z.ltb_ge in E; lia].
      exists []. simpl.
      split; [rewrite unblocked_app; simpl; reflexivity |].
      split; [constructor | now apply accounted_insert].
  - destruct (wakeup_pass_wakes_due s s1 Hstep) as [head [Hq [Hdue [Hun _]]]].
    exists head. split; [exact Hun |]. split; [exact Hdue |].
    rewrite app_nil_r. rewrite Hq in Hacc. now apply accounted_pop.
Qed.

Lemma run_accounts (ops : list op) (s s' : kstate)
      (requested woken : list sleeping_thread) :
  run ops s = Done tt s' ->
  accounted (sleeping_threads_list s) requested woken ->
  exists head,
    unblocked (trace s') = unblocked (trace s) ++ map t head
    /\ accounted (sleeping_threads_list s')
         (requested ++ requests ops s) (woken ++ head).
Proof.
  revert s requested woken.
  induction ops as [| o ops IH]; intros s requested woken Hrun Hacc.
  - inversion Hrun; subst. exists []. simpl.
    split; [now rewrite app_nil_r | now apply accounted_same].
  - cbn [run] in Hrun. apply bind_done in Hrun.
    destruct Hrun as [[] [s1 [Hstep Hrest]]].
    destruct (step_accounts o s s1 requested woken Hstep Hacc)
      as [head1 [Hun1 [_ Hacc1]]].
    destruct (IH s1 _ _ Hrest Hacc1) as [head2 [Hun2 Hacc2]].
    exists (head1 ++ head2). split.
    + rewrite Hun2, Hun1, map_app. now rewrite app_assoc.
    + cbn [requests]. rewrite Hstep.
      rewrite (app_assoc requested), (app_assoc woken). exact Hacc2.
Qed.

(** X7: no wake-up is lost or doubled. After any run that starts with an
    empty queue, the entries whose owners the scans have passed to
    [thread_unblock], together with the entries still queued, are exactly
    the requests made, each once; and among requests for the same tick the
    owners are unblocked in the order they called [timer_sleep]. *)
Theorem run_accounts_for_requests (ops : list op) (s0 s : kstate) :
  sleeping_threads_list s0 = [] ->
  run ops s0 = Done tt s ->
  exists woken,
    unblocked (trace s) = unblocked (trace s0) ++ map t woken
    /\ Permutation (requests ops s0) (woken ++ sleeping_threads_list s)
    /\ forall w : Z,
         waking_at w (requests ops s0)
         = waking_at w woken ++ waking_at w (sleeping_threads_list s).
Proof.
  intros Hempty Hrun.
  assert (Hinit : accounted (sleeping_threads_list s0) [] []).
  { rewrite Hempty. split; [exact I |].
    split; [apply Permutation_refl | reflexivity]. }
  destruct (run_accounts ops s0 s [] [] Hrun Hinit) as [woken [Hun [_ [Hp Hf]]]].
  exists woken. simpl in *. auto.
Qed.

Lemma run_accounts_for_requests_witness :
  sleeping_threads_list idle_state = []
  /\ exists s woken,
       run sample_run idle_state = Done tt s
       /\ unblocked (trace s) = unblocked (trace idle_state) ++ map t woken
       /\ Permutation (requests sample_run idle_state)
            (woken ++ sleeping_threads_list s).
Proof.
  split; [reflexivity |].
  assert (Hrun : exists s, run sample_run idle_state = Done tt s)
    by (eexists; vm_compute; reflexivity).
  destruct Hrun as [s Hrun].
  destruct (run_accounts_for_requests sample_run idle_state s eq_refl Hrun)
    as [woken [Hun [Hp _]]].
  exists s, woken. auto.
Defined.

(** ** Elapsed ticks *)

Lemma timer_elapsed_reads (then_ : Z) (s : kstate) :
  timer_elapsed then_ s = Done (sub64 (ticks s) then_) s.
Proof.
  unfold timer_elapsed. unfold bind at 1. rewrite timer_ticks_reads. reflexivity.
Qed.

Lemma count_ticks_nonneg (ops : list op) : 0 <= count_ticks ops.
Proof.
  induction ops as [| o ops IH]; [simpl; lia |].
  destruct o; cbn [count_ticks]; lia.
Qed.

Lemma step_ticks (o : op) (s s1 : kstate) :
  step o s = Done tt s1 ->
  ticks s1 = match o with OpTick => add64 (ticks s) 1 | _ => ticks s end.
Proof.
  intros Hstep. destruct o as [| | who n |]; cbn [step] in Hstep.
  - inversion Hstep; subst. reflexivity.
  - inversion Hstep; subst. reflexivity.
  - change ((modify (set_running who) ;; timer_sleep n) s)
      with (timer_sleep n (set_running who s)) in Hstep.
    destruct (timer_sleep_done_inv n _ s1 Hstep)
      as [[_ ->] | [_ [_ [k [_ ->]]]]]; reflexivity.
  - destruct (wakeup_pass_done_inv s s1 Hstep) as [[_ ->] | [_ [_ ->]]];
      reflexivity.
Qed.

Lemma run_ticks (ops : list op) (s s' : kstate) :
  in_int64 (ticks s) -> in_int64 (ticks s + count_ticks ops) ->
  run ops s = Done tt s' ->
  ticks s' = ticks s + count_ticks ops.
Proof.
  revert s. induction ops as [| o ops IH]; intros s Hlo Hhi Hrun.
  - inversion Hrun; subst. simpl. lia.
  - cbn [run] in Hrun. apply bind_done in Hrun.
    destruct Hrun as [[] [s1 [Hstep Hrest]]].
    pose proof (step_ticks o s s1 Hstep) as Ht.
    pose proof (count_ticks_nonneg ops) as Hc.
    assert (Hs1 : ticks s1 + count_ticks ops = ticks s + count_ticks (o :: ops)
                  /\ in_int64 (ticks s1)).
    { unfold in_int64, INT64_MIN, INT64_MAX in *.
      destruct o; cbn [count_ticks] in *; try (rewrite Ht; lia).
      assert (E : ticks s1 = ticks s + 1).
      { rewrite Ht. apply wrap64_id.
        unfold in_int64, INT64_MIN, INT64_MAX. lia. }
      rewrite E. lia. }
    destruct Hs1 as [Hsum Hin1].
    rewrite <- Hsum. apply IH; [exact Hin1 | rewrite Hsum; exact Hhi | exact Hrest].
Qed.

(** X8: [timer_elapsed] counts the ticks since its argument was read.
    Reading [timer_ticks], letting any run of ticks, sleeps and wake-up
    passes go by and then asking [timer_elapsed] gives the number of ticks
    of that run (0 when there was none), as long as the tick counter has
    not left the int64 range; neither call changes the state, the interrupt
    level included. *)
Theorem timer_elapsed_counts_ticks (ops : list op) (s s' : kstate) :
  0 <= ticks s -> ticks s + count_ticks ops <= INT64_MAX ->
  run ops s = Done tt s' ->
  (then_ <- timer_ticks ;; run ops ;; timer_elapsed then_) s
  = Done (count_ticks ops) s'.
Proof.
  intros Hlo Hhi Hrun.
  pose proof (count_ticks_nonneg ops) as Hc.
  assert (Ht : ticks s' = ticks s + count_ticks ops).
  { apply run_ticks; [| | exact Hrun];
      unfold in_int64, INT64_MIN, INT64_MAX in *; lia. }
  unfold bind at 1. rewrite timer_ticks_reads.
  unfold bind at 1. rewrite Hrun.
  rewrite timer_elapsed_reads, Ht. f_equal.
  unfold sub64. replace (ticks s + count_ticks ops - ticks s)
    with (count_ticks ops) by lia.
  apply wrap64_id. unfold in_int64, INT64_MIN, INT64_MAX in *. lia.
Qed.

Lemma timer_elapsed_counts_ticks_witness :
  0 <= ticks idle_state
  /\ ticks idle_state + count_ticks sample_run <= INT64_MAX
  /\ exists s',
       run sample_run idle_state = Done tt s'
       /\ (then_ <- timer_ticks ;; run sample_run ;; timer_elapsed then_) idle_state
          = Done 1 s'.
Proof.
  assert (H1 : 0 <= ticks idle_state) by (simpl; lia).
  assert (H2 : ticks idle_state + count_ticks sample_run <= INT64_MAX)
    by (unfold INT64_MAX; simpl; lia).
  split; [exact H1 |]. split; [exact H2 |].
  eexists.
  assert (Hrun : run sample_run idle_state = Done tt _) by (vm_compute; reflexivity).
  split; [exact Hrun |].
  exact (timer_elapsed_counts_ticks sample_run idle_state _ H1 H2 Hrun).
Defined.

(** ** Busy-wait delays *)

Lemma real_time_delay_checked (F num denom : Z) (s : kstate) :
  Z.rem denom 1000 = 0 ->
  real_time_delay F num denom s =
  busy_wait (div64 (mul64 (div64 (mul64 (loops_per_tick s) num) 1000) F)
                   (Z.quot denom 1000)) s.
Proof.
  intros Hrem. unfold real_time_delay, bind, ASSERT, get.
  rewrite Hrem. reflexivity.
Qed.

(** [real_time_delay] returns exactly when its denominator is a
    multiple of 1000; otherwise it stops at its ASSERT before it has spun
    or changed anything. *)
Theorem real_time_delay_returns_iff (F num denom : Z) (s : kstate) :
  (returns (real_time_delay F num denom s) = true <-> Z.rem denom 1000 = 0)
  /\ (Z.rem denom 1000 <> 0 -> real_time_delay F num denom s = Fatal s).
Proof.
  assert (Hbad : Z.rem denom 1000 <> 0 -> real_time_delay F num denom s = Fatal s).
  { intros Hrem. unfold real_time_delay, bind, ASSERT.
    destruct (Z.rem denom 1000 =? 0) eqn:E;
      [apply Z.eqb_eq in E; contradiction | reflexivity]. }
  split; [| exact Hbad]. split.
  - intros H. destruct (Z.eq_dec (Z.rem denom 1000) 0) as [E | E]; [exact E |].
    rewrite (Hbad E) in H. discriminate.
  - intros Hrem. rewrite (real_time_delay_checked F num denom s Hrem). reflexivity.
Qed.

Lemma real_time_delay_returns_iff_witness :
  Z.rem 1500 1000 <> 0 /\ real_time_delay 100 3 1500 idle_state = Fatal idle_state.
Proof.
  assert (H : Z.rem 1500 1000 <> 0) by (vm_compute; discriminate).
  split; [exact H |].
  exact (proj2 (real_time_delay_returns_iff 100 3 1500 idle_state) H).
Defined.

(** X9: [timer_mdelay], [timer_udelay] and [timer_ndelay] never look at the
    interrupt level, the lock or the queue: for a non-negative duration
    whose products fit an int64 they return after spinning
    [loops_per_tick * num / 1000 * TIMER_FREQ / (denom / 1000)] times and
    change nothing else. *)
Theorem delay_spins_scaled_count
        (F : Z) (wrapper : Z -> M unit) (denom num : Z) (s : kstate) :
  In (wrapper, denom) (delay_wrappers F) ->
  0 <= F -> 0 <= num -> 0 <= loops_per_tick s ->
  in_int64 (loops_per_tick s * num) ->
  in_int64 (loops_per_tick s * num / 1000 * F) ->
  wrapper num s =
  Done tt (emit (EvBusyWait
                   (Z.to_nat (loops_per_tick s * num / 1000 * F / (denom / 1000))))
                s).
Proof.
  intros Hin HF Hnum Hlpt Hp1 Hp2.
  assert (Hw : wrapper = (fun n => real_time_delay F n denom)
               /\ Z.rem denom 1000 = 0 /\ 0 < Z.quot denom 1000
               /\ Z.quot denom 1000 = denom / 1000).
  { simpl in Hin.
    destruct Hin as [H | [H | [H | []]]]; inversion H; subst;
      (split; [reflexivity | split; [reflexivity | split; [reflexivity | reflexivity]]]). }
  destruct Hw as [-> [Hrem [Hd Hdq]]].
  rewrite (real_time_delay_checked F num denom s Hrem).
  assert (H1 : mul64 (loops_per_tick s) num = loops_per_tick s * num)
    by (apply wrap64_id; exact Hp1).
  assert (Hq1 : 0 <= loops_per_tick s * num / 1000)
    by (apply Z.div_pos; nia).
  assert (H2 : div64 (loops_per_tick s * num) 1000 = loops_per_tick s * num / 1000).
  { unfold div64. rewrite Z.quot_div_nonneg by nia.
    apply wrap64_id.
    pose proof (Z.mul_div_le (loops_per_tick s * num) 1000 ltac:(lia)).
    unfold in_int64, INT64_MIN, INT64_MAX in *. nia. }
  assert (H3 : mul64 (loops_per_tick s * num / 1000) F
               = loops_per_tick s * num / 1000 * F)
    by (apply wrap64_id; exact Hp2).
  assert (Hq2 : 0 <= loops_per_tick s * num / 1000 * F) by nia.
  assert (H4 : in_int64 (Z.quot (loops_per_tick s * num / 1000 * F)
                                (Z.quot denom 1000)))
    by (apply quot_in_int64; assumption).
  unfold busy_wait. rewrite H1, H2, H3. unfold div64 at 1.
  rewrite (wrap64_id _ H4).
  rewrite (busy_wait_from_count _ 0 H4). simpl.
  rewrite Z.quot_div_nonneg by lia. rewrite Hdq. reflexivity.
Qed.

Lemma delay_spins_scaled_count_witness :
  In (timer_mdelay 100, 1000) (delay_wrappers 100)
  /\ timer_mdelay 100 3 idle_state_intr_off
     = Done tt (emit (EvBusyWait 300) idle_state_intr_off).
Proof.
  assert (H1 : In (timer_mdelay 100, 1000) (delay_wrappers 100))
    by (left; reflexivity).
  split; [exact H1 |].
  apply (delay_spins_scaled_count 100 (timer_mdelay 100) 1000 3
           idle_state_intr_off H1);
    unfold in_int64, INT64_MIN, INT64_MAX; simpl; lia.
Defined.

(** ** Units of the sleep wrappers *)

(** X10: the sleep wrappers agree across units. With interrupts on, a
    duration of at least one tick given as [1000 * ms] microseconds or as
    [1000000 * ms] nanoseconds does exactly what [timer_msleep ms] does,
    as long as the largest product fits an int64. *)
Theorem sleep_units_agree (F ms : Z) (s : kstate) :
  intr s = INTR_ON ->
  in_int64 (1000000 * ms * F) ->
  1 <= ms * F / 1000 ->
  timer_usleep F (1000 * ms) s = timer_msleep F ms s
  /\ timer_nsleep F (1000000 * ms) s = timer_msleep F ms s.
Proof.
  intros Hon Hbig Hone.
  assert (Hpos : 1000 <= ms * F).
  { destruct (Z_lt_ge_dec (ms * F) 1000) as [Hlt | Hge]; [| lia].
    pose proof (Z.div_lt_upper_bound (ms * F) 1000 1 ltac:(lia) ltac:(lia)). lia. }
  assert (Hms : in_int64 (ms * F))
    by (unfold in_int64, INT64_MIN, INT64_MAX in *; lia).
  assert (Hus : in_int64 (1000 * ms * F))
    by (unfold in_int64, INT64_MIN, INT64_MAX in *; lia).
  assert (Tms : real_time_ticks F ms 1000 = ms * F / 1000).
  { rewrite real_time_ticks_quot by (assumption || lia).
    apply Z.quot_div_nonneg; lia. }
  assert (Tus : real_time_ticks F (1000 * ms) (1000 * 1000) = ms * F / 1000).
  { rewrite real_time_ticks_quot by (assumption || lia).
    rewrite Z.quot_div_nonneg by lia.
    replace (1000 * ms * F) with (1000 * (ms * F)) by lia.
    apply Z.div_mul_cancel_l; lia. }
  assert (Tns : real_time_ticks F (1000000 * ms) (1000 * 1000 * 1000)
                = ms * F / 1000).
  { rewrite real_time_ticks_quot by (assumption || lia).
    rewrite Z.quot_div_nonneg by lia.
    replace (1000000 * ms * F) with (1000000 * (ms * F)) by lia.
    change (1000 * 1000 * 1000) with (1000000 * 1000).
    apply Z.div_mul_cancel_l; lia. }
  unfold timer_usleep, timer_nsleep, timer_msleep.
  rewrite !real_time_sleep_routes by exact Hon.
  rewrite Tms, Tus, Tns.
  destruct (ms * F / 1000 >? 0) eqn:E; [split; reflexivity |].
  rewrite Z.gtb_ltb, Z.ltb_ge in E. lia.
Qed.

Lemma sleep_units_agree_witness :
  intr idle_state = INTR_ON
  /\ in_int64 (1000000 * 30 * 100)
  /\ 1 <= 30 * 100 / 1000
  /\ timer_usleep 100 (1000 * 30) idle_state = timer_msleep 100 30 idle_state.
Proof.
  assert (H2 : in_int64 (1000000 * 30 * 100))
    by (unfold in_int64, INT64_MIN, INT64_MAX; lia).
  assert (H3 : 1 <= 30 * 100 / 1000) by (vm_compute; discriminate).
  split; [reflexivity |]. split; [exact H2 |]. split; [exact H3 |].
  exact (proj1 (sleep_units_agree 100 30 idle_state eq_refl H2 H3)).
Defined.

(** ** What the interrupt handler leaves alone *)

Lemma scan_stays_off_refl (s : kstate) : scan_stays_off s s.
Proof. split; auto. Qed.

Lemma scan_stays_off_trans (a b c : kstate) :
  scan_stays_off a b -> scan_stays_off b c -> scan_stays_off a c.
Proof.
  intros [Ht1 H1] [Ht2 H2]. split; [congruence |].
  intros Ha. destruct (H1 Ha) as [Hb Hu1]. destruct (H2 Hb) as [Hc Hu2].
  split; congruence.
Qed.

Lemma keeps_bind {A B} (m : M A) (k : A -> M B) :
  keeps scan_stays_off m -> (forall a, keeps scan_stays_off (k a)) ->
  keeps scan_stays_off (bind m k).
Proof.
  intros Hm Hk s. specialize (Hm s). unfold bind.
  destruct (m s) as [a s1 | s1 | s1 | s1]; simpl in *; try exact Hm.
  exact (scan_stays_off_trans s s1 _ Hm (Hk a s1)).
Qed.

Lemma keeps_ret {A} (a : A) : keeps scan_stays_off (ret a).
Proof. intros s. apply scan_stays_off_refl. Qed.

Lemma keeps_get {A} (proj : kstate -> A) : keeps scan_stays_off (get proj).
Proof. intros s. apply scan_stays_off_refl. Qed.

Lemma keeps_panic {A} : keeps scan_stays_off (@panic A).
Proof. intros s. apply scan_stays_off_refl. Qed.

Lemma keeps_ASSERT (c : bool) : keeps scan_stays_off (ASSERT c).
Proof. destruct c; [apply keeps_ret | apply keeps_panic]. Qed.

(** Closes a goal about a collaborator whose only trace is a call other
    than [thread_unblock]. *)
Ltac stays_off :=
  intros s; split; simpl;
  [ reflexivity
  | intros Hoff; split;
    [ exact Hoff
    | rewrite ?unblocked_app; simpl; rewrite ?app_nil_r; reflexivity ] ].

Lemma keeps_lock_acquire : keeps scan_stays_off lock_acquire.
Proof.
  intros s. unfold lock_acquire.
  destruct (sleeper_lock s); [apply scan_stays_off_refl |]. revert s. stays_off.
Qed.

Lemma keeps_lock_release : keeps scan_stays_off lock_release.
Proof.
  intros s. unfold lock_release.
  destruct (sleeper_lock s) as [h |]; [| apply scan_stays_off_refl].
  destruct (Nat.eqb h (running s)); [| apply scan_stays_off_refl].
  revert s. stays_off.
Qed.

Lemma keeps_malloc : keeps scan_stays_off malloc.
Proof.
  intros s. unfold malloc. destruct (heap_free s); revert s; stays_off.
Qed.

Lemma keeps_thread_block : keeps scan_stays_off thread_block.
Proof. stays_off. Qed.

Lemma keeps_busy_wait (loops : Z) : keeps scan_stays_off (busy_wait loops).
Proof. stays_off. Qed.

Lemma keeps_intr_set_level (l : intr_level) :
  keeps scan_stays_off (intr_set_level l).
Proof. stays_off. Qed.

Lemma keeps_set_list (q : list sleeping_thread) :
  keeps scan_stays_off (modify (set_list q)).
Proof. stays_off. Qed.

Lemma keeps_timer_ticks : keeps scan_stays_off timer_ticks.
Proof. intros s. rewrite timer_ticks_reads. apply scan_stays_off_refl. Qed.

Lemma keeps_timer_sleep (n : Z) : keeps scan_stays_off (timer_sleep n).
Proof.
  unfold timer_sleep. destruct (n <=? 0); [apply keeps_ret |].
  apply keeps_bind; [apply keeps_timer_ticks | intros start].
  apply keeps_bind; [apply keeps_lock_acquire | intros _].
  apply keeps_bind; [apply keeps_malloc | intros got].
  apply keeps_bind;
    [destruct got; [apply keeps_ret | apply keeps_panic] | intros _].
  apply keeps_bind; [apply keeps_get | intros cur].
  apply keeps_bind; [apply keeps_get | intros q].
  apply keeps_bind; [apply keeps_set_list | intros _].
  apply keeps_bind; [apply keeps_lock_release | intros _].
  apply keeps_thread_block.
Qed.

Lemma keeps_real_time_delay (F num denom : Z) :
  keeps scan_stays_off (real_time_delay F num denom).
Proof.
  unfold real_time_delay.
  apply keeps_bind; [apply keeps_ASSERT | intros _].
  apply keeps_bind; [apply keeps_get | intros lpt].
  apply keeps_busy_wait.
Qed.

Lemma keeps_real_time_sleep (F num denom : Z) :
  keeps scan_stays_off (real_time_sleep F num denom).
Proof.
  unfold real_time_sleep.
  apply keeps_bind; [apply keeps_get | intros level].
  apply keeps_bind; [apply keeps_ASSERT | intros _].
  destruct (real_time_ticks F num denom >? 0);
    [apply keeps_timer_sleep | apply keeps_real_time_delay].
Qed.

Lemma keeps_wakeup_pass : keeps scan_stays_off wakeup_pass.
Proof.
  intros s. destruct (wakeup_needed s) eqn:Hneed.
  - split; [| congruence].
    destruct (sleeper_lock s) as [h |] eqn:Hlock.
    + rewrite (wakeup_pass_lock_held s h Hneed Hlock). reflexivity.
    + rewrite (wakeup_pass_scans s Hneed Hlock). reflexivity.
  - rewrite (wakeup_pass_idle s Hneed). apply scan_stays_off_refl.
Qed.

Lemma keeps_timer_wakeup (F : Z) (fuel : nat) :
  keeps scan_stays_off (timer_wakeup F fuel).
Proof.
  induction fuel as [| fuel IH]; cbn [timer_wakeup].
  - intros s. apply scan_stays_off_refl.
  - apply keeps_bind; [apply keeps_wakeup_pass | intros _].
    apply keeps_bind; [apply keeps_intr_set_level | intros old_level].
    apply keeps_bind; [apply keeps_real_time_sleep | intros _].
    apply keeps_bind; [apply keeps_intr_set_level | intros _].
    exact IH.
Qed.

(** X11: the handler never wakes anybody. [wakeup_needed] is raised only by
    the last statement of [timer_interrupt], which is never reached, so with
    the flag down at entry (as the loader leaves it) the handler counts its
    one tick and then, however long [timer_wakeup] is followed and however
    it ends, the flag is still down and no thread has been passed to
    [thread_unblock]. *)
Theorem timer_interrupt_never_wakes (F : Z) (fuel : nat) (s : kstate) :
  wakeup_needed s = false ->
  ticks (final (timer_interrupt F fuel s)) = add64 (ticks s) 1
  /\ wakeup_needed (final (timer_interrupt F fuel s)) = false
  /\ unblocked (trace (final (timer_interrupt F fuel s))) = unblocked (trace s).
Proof.
  intros Hoff. rewrite timer_interrupt_head.
  set (s0 := emit EvThreadTick (set_ticks (add64 (ticks s) 1) s)).
  assert (Hfinal : final ((timer_wakeup F fuel ;; modify (set_wakeup_needed true)) s0)
                   = final (timer_wakeup F fuel s0)).
  { unfold bind. pose proof (timer_wakeup_never_returns F fuel s0) as Hnr.
    destruct (timer_wakeup F fuel s0); simpl in *; [discriminate | | |];
      reflexivity. }
  rewrite Hfinal.
  destruct (keeps_timer_wakeup F fuel s0) as [Ht Hrest].
  destruct (Hrest Hoff) as [Hflag Hun].
  split; [rewrite Ht; reflexivity |]. split; [exact Hflag |].
  rewrite Hun. subst s0. simpl. rewrite unblocked_app. simpl. apply app_nil_r.
Qed.

Lemma timer_interrupt_never_wakes_witness :
  wakeup_needed (boot_state 4) = false
  /\ wakeup_needed (final (timer_interrupt 1000 7 (boot_state 4))) = false
  /\ unblocked (trace (final (timer_interrupt 1000 7 (boot_state 4)))) = [].
Proof.
  split; [reflexivity |].
  destruct (timer_interrupt_never_wakes 1000 7 (boot_state 4) eq_refl)
    as [_ [Hflag Hun]].
  split; [exact Hflag | exact Hun].
Defined.

(** ** Calibration always ends, within bounds *)

Lemma shlu32_pow2 (k : Z) :
  0 <= k <= 31 ->
  shlu32 (2 ^ k) 1 = if k =? 31 then 0 else 2 ^ (k + 1).
Proof.
  intros Hk. unfold shlu32, wrapu32.
  rewrite Z.shiftl_mul_pow2 by lia.
  replace (2 ^ k * 2 ^ 1) with (2 ^ (k + 1)) by (rewrite Z.pow_add_r; lia).
  destruct (k =? 31) eqn:E.
  - apply Z.eqb_eq in E. subst k. reflexivity.
  - apply Z.eqb_neq in E. apply Z.mod_small. split; [apply Z.pow_nonneg; lia |].
    apply Z.pow_lt_mono_r; lia.
Qed.

(** The doubling loop started at [2 ^ k] ends within [32 - k] turns: it
    returns a power of two up to [2 ^ 31] or stops at its ASSERT. *)
Lemma calibrate_search_ends (arrives : nat -> Z -> bool) (m fuel n : nat)
      (k : Z) (s : kstate) :
  loops_per_tick s = 2 ^ k -> 10 <= k <= 31 -> Z.of_nat m = 31 - k ->
  (m < fuel)%nat ->
  match calibrate_search arrives fuel n s with
  | Done _ s' => exists k', k <= k' <= 31 /\ loops_per_tick s' = 2 ^ k'
  | Fatal _ => True
  | _ => False
  end.
Proof.
  revert fuel n k s. induction m as [| m IH]; intros fuel n k s Hlpt Hk Hm Hfuel;
    (destruct fuel as [| fuel]; [lia |]); cbn [calibrate_search];
    unfold bind at 1; unfold get at 1; unfold bind at 1;
    destruct (too_many_loops_total arrives n (shlu32 (loops_per_tick s) 1) s)
      as [b [s1 [Hmeasure Hsame]]];
    rewrite Hmeasure; (destruct b; [exists k; split; [lia | congruence] |]);
    unfold bind at 1; unfold modify at 1; unfold bind at 1; unfold get at 1;
    cbn [loops_per_tick set_loops_per_tick];
    rewrite Hlpt, shlu32_pow2 by lia.
  - replace (k =? 31) with true by (symmetry; apply Z.eqb_eq; lia).
    reflexivity.
  - replace (k =? 31) with false by (symmetry; apply Z.eqb_neq; lia).
    assert (Hnz : (2 ^ (k + 1) =? 0) = false).
    { apply Z.eqb_neq. pose proof (Z.pow_pos_nonneg 2 (k + 1)). lia. }
    unfold bind at 1. rewrite Hnz. cbn [negb ASSERT]. unfold ret at 1.
    specialize (IH fuel (S n) (k + 1)
                  (set_loops_per_tick (2 ^ (k + 1)) s1)
                  eq_refl ltac:(lia) ltac:(lia) ltac:(lia)).
    destruct (calibrate_search arrives fuel (S n) _); try exact IH.
    destruct IH as [k' [Hk' Hl']]. exists k'. split; [lia | exact Hl'].
Qed.

Lemma lor_low_bit (c e : Z) :
  1 <= e -> Z.lor (c * 2 ^ e) (2 ^ (e - 1)) = c * 2 ^ e + 2 ^ (e - 1).
Proof.
  intros He. pose proof (Z.add_lor_land (c * 2 ^ e) (2 ^ (e - 1))) as H.
  assert (Hland : Z.land (c * 2 ^ e) (2 ^ (e - 1)) = 0).
  { apply Z.bits_inj'. intros i Hi.
    rewrite Z.land_spec, Z.bits_0, Z.pow2_bits_eqb by lia.
    destruct (e - 1 =? i) eqn:E.
    - apply Z.eqb_eq in E. rewrite Z.mul_pow2_bits_low by lia. reflexivity.
    - apply andb_false_r. }
  lia.
Qed.

(** The refinement loop with [m] measurements left keeps [loops_per_tick]
    under the leading bit's double: it is a multiple of twice the test bit,
    so OR-ing the test bit in adds it. *)
Lemma calibrate_refine_bounds (arrives : nat -> Z -> bool) (k : Z)
      (m fuel n : nat) (c : Z) (s : kstate) :
  10 <= k -> (m <= 9)%nat -> (m < fuel)%nat ->
  loops_per_tick s = c * 2 ^ (k - 9 + Z.of_nat m) ->
  2 ^ k <= loops_per_tick s < 2 ^ (k + 1) ->
  exists s',
    calibrate_refine arrives fuel n (2 ^ k) (2 ^ (k - 10 + Z.of_nat m)) s
    = Done (n + m)%nat s'
    /\ 2 ^ k <= loops_per_tick s' < 2 ^ (k + 1).
Proof.
  intros Hk. revert fuel n c s.
  induction m as [| m IH]; intros fuel n c s Hm Hfuel Hmult Hbound;
    (destruct fuel as [| fuel]; [lia |]); cbn [calibrate_refine];
    rewrite (shru32_pow2 k 10) by lia.
  - replace (k - 10 + Z.of_nat 0) with (k - 10) by lia.
    rewrite Z.eqb_refl. exists s. unfold ret.
    split; [f_equal; lia | exact Hbound].
  - destruct (2 ^ (k - 10 + Z.of_nat (S m)) =? 2 ^ (k - 10)) eqn:E;
      [apply Z.eqb_eq in E; apply Z.pow_inj_r in E; lia |].
    unfold bind at 1. unfold get at 1. unfold bind at 1.
    destruct (too_many_loops_total arrives n
                (oru32 (loops_per_tick s) (2 ^ (k - 10 + Z.of_nat (S m)))) s)
      as [b [s1 [Hmeasure Hsame]]].
    rewrite Hmeasure. unfold bind at 1.
    rewrite (shru32_pow2 (k - 10 + Z.of_nat (S m)) 1) by lia.
    replace (k - 10 + Z.of_nat (S m) - 1) with (k - 10 + Z.of_nat m) by lia.
    replace (n + S m)%nat with (S n + m)%nat by lia.
    set (e := k - 9 + Z.of_nat m).
    assert (He : 1 <= e) by (unfold e; lia).
    assert (Hsplit : 2 ^ (k - 9 + Z.of_nat (S m)) = 2 * 2 ^ e).
    { replace (k - 9 + Z.of_nat (S m)) with (e + 1) by (unfold e; lia).
      rewrite Z.pow_add_r by lia. lia. }
    assert (Htest : 2 ^ (k - 10 + Z.of_nat (S m)) = 2 ^ e)
      by (f_equal; unfold e; lia).
    destruct b; simpl.
    + apply (IH fuel (S n) (2 * c) s1); [lia | lia | |].
      * rewrite Hsame, Hmult, Hsplit. fold e. lia.
      * rewrite Hsame. exact Hbound.
    + assert (Hor : oru32 (loops_per_tick s1) (2 ^ (k - 10 + Z.of_nat (S m)))
                    = c * (2 * 2 ^ e) + 2 ^ e).
      { rewrite Hsame, Hmult, Hsplit, Htest. unfold oru32.
        pose proof (lor_low_bit c (e + 1) ltac:(lia)) as Hl.
        replace (e + 1 - 1) with e in Hl by lia.
        rewrite (Z.pow_add_r 2 e 1) in Hl by lia.
        change (2 ^ 1) with 2 in Hl. rewrite (Z.mul_comm (2 ^ e) 2) in Hl.
        exact Hl. }
      apply (IH fuel (S n) (2 * c + 1)
               (set_loops_per_tick
                  (oru32 (loops_per_tick s1) (2 ^ (k - 10 + Z.of_nat (S m)))) s1));
        [lia | lia | |]; cbn [loops_per_tick set_loops_per_tick]; rewrite Hor.
      * fold e. lia.
      * rewrite Hmult, Hsplit in Hbound.
        assert (Htop : 2 ^ (k + 1) = 2 ^ (k - e) * (2 * 2 ^ e)).
        { replace (k + 1) with ((k - e) + (e + 1)) at 1 by lia.
          rewrite !Z.pow_add_r by (unfold e; lia). lia. }
        pose proof (Z.pow_pos_nonneg 2 e ltac:(lia) ltac:(lia)) as Hpe.
        assert (Hc : c < 2 ^ (k - e)) by nia.
        split; nia.
Qed.

Lemma timer_calibrate_with_interrupts_on (arrives : nat -> Z -> bool)
      (fuel : nat) (s : kstate) :
  intr s = INTR_ON ->
  timer_calibrate arrives fuel s =
  (n <- calibrate_search arrives fuel O ;;
   high_bit <- get loops_per_tick ;;
   calibrate_refine arrives fuel n high_bit (shru32 high_bit 1) ;;
   ret tt) (set_loops_per_tick (2 ^ 10) s).
Proof.
  intros Hon. unfold timer_calibrate.
  unfold bind at 1. unfold intr_get_level, get at 1. rewrite Hon.
  reflexivity.
Qed.

Lemma calibrate_loops_end (arrives : nat -> Z -> bool) (s0 : kstate) :
  loops_per_tick s0 = 2 ^ 10 ->
  match (n <- calibrate_search arrives 32 O ;;
         high_bit <- get loops_per_tick ;;
         calibrate_refine arrives 32 n high_bit (shru32 high_bit 1) ;;
         ret tt) s0 with
  | Done _ s' =>
      exists k, 10 <= k <= 31 /\ 2 ^ k <= loops_per_tick s' < 2 ^ (k + 1)
  | Fatal _ => True
  | _ => False
  end.
Proof.
  intros Hstart.
  pose proof (calibrate_search_ends arrives 21 32 0 10 s0
                Hstart ltac:(lia) eq_refl ltac:(lia)) as Hsearch.
  unfold bind at 1.
  destruct (calibrate_search arrives 32 0 s0) as [n s1 | s1 | s1 | s1];
    try exact Hsearch.
  destruct Hsearch as [k [Hk Hlpt]].
  unfold bind at 1. unfold get at 1. rewrite Hlpt.
  rewrite (shru32_pow2 k 1) by lia.
  replace (k - 1) with (k - 10 + Z.of_nat 9) by lia.
  destruct (calibrate_refine_bounds arrives k 9 32 n 1 s1
              ltac:(lia) ltac:(lia) ltac:(lia))
    as [s2 [Hrefine Hbound]].
  - rewrite Hlpt. replace (k - 9 + Z.of_nat 9) with k by lia. lia.
  - rewrite Hlpt. split; [lia |]. apply Z.pow_lt_mono_r; lia.
  - unfold bind. rewrite Hrefine. unfold ret.
    exists k. split; [lia | exact Hbound].
Qed.

(** ** Nobody is woken early, over whole runs *)

Lemma run_accounts_due (ops : list op) (s s' : kstate)
      (requested woken : list sleeping_thread) :
  in_int64 (ticks s) -> in_int64 (ticks s + count_ticks ops) ->
  run ops s = Done tt s' ->
  accounted (sleeping_threads_list s) requested woken ->
  exists head,
    unblocked (trace s') = unblocked (trace s) ++ map t head
    /\ Forall (fun e => wake_up_time e <= ticks s') head
    /\ accounted (sleeping_threads_list s')
         (requested ++ requests ops s) (woken ++ head).
Proof.
  revert s requested woken.
  induction ops as [| o ops IH]; intros s requested woken Hlo Hhi Hrun Hacc.
  - inversion Hrun; subst. exists []. simpl.
    split; [now rewrite app_nil_r |].
    split; [constructor | now apply accounted_same].
  - pose proof (run_ticks (o :: ops) s s' Hlo Hhi Hrun) as Hend.
    cbn [run] in Hrun. apply bind_done in Hrun.
    destruct Hrun as [[] [s1 [Hstep Hrest]]].
    pose proof (step_ticks o s s1 Hstep) as Ht.
    pose proof (count_ticks_nonneg ops) as Hc.
    assert (Hs1 : ticks s1 + count_ticks ops = ticks s + count_ticks (o :: ops)
                  /\ in_int64 (ticks s1)).
    { unfold in_int64, INT64_MIN, INT64_MAX in *.
      destruct o; cbn [count_ticks] in *; try (rewrite Ht; lia).
      assert (E : ticks s1 = ticks s + 1).
      { rewrite Ht. apply wrap64_id.
        unfold in_int64, INT64_MIN, INT64_MAX. lia. }
      rewrite E. lia. }
    destruct Hs1 as [Hsum Hin1].
    destruct (step_accounts o s s1 requested woken Hstep Hacc)
      as [head1 [Hun1 [Hdue1 Hacc1]]].
    destruct (IH s1 _ _ Hin1 ltac:(rewrite Hsum; exact Hhi) Hrest Hacc1)
      as [head2 [Hun2 [Hdue2 Hacc2]]].
    exists (head1 ++ head2). split; [| split].
    + rewrite Hun2, Hun1, map_app. now rewrite app_assoc.
    + apply Forall_app. split; [| exact Hdue2].
      eapply Forall_impl; [| exact Hdue1]. simpl. intros e He.
      pose proof (count_ticks_nonneg (o :: ops)). lia.
    + cbn [requests]. rewrite Hstep.
      rewrite (app_assoc requested), (app_assoc woken). exact Hacc2.
Qed.

(** X13: nobody is woken early, over whole runs. As long as the tick count
    stays an int64, the threads unblocked in a run that starts with an
    empty queue are owners of entries that were requested in that run and
    whose wake-up time is not after the tick at which the run ends; since a
    run cut short is a run, this holds at the moment of every wake-up. *)
Theorem run_wakes_only_due_requests (ops : list op) (s0 s : kstate) :
  sleeping_threads_list s0 = [] ->
  in_int64 (ticks s0) -> in_int64 (ticks s0 + count_ticks ops) ->
  run ops s0 = Done tt s ->
  exists woken,
    unblocked (trace s) = unblocked (trace s0) ++ map t woken
    /\ Forall (fun e => In e (requests ops s0) /\ wake_up_time e <= ticks s) woken.
Proof.
  intros Hempty Hlo Hhi Hrun.
  assert (Hinit : accounted (sleeping_threads_list s0) [] []).
  { rewrite Hempty. split; [exact I |].
    split; [apply Permutation_refl | reflexivity]. }
  destruct (run_accounts_due ops s0 s [] [] Hlo Hhi Hrun Hinit)
    as [woken [Hun [Hdue [_ [Hp _]]]]].
  exists woken. split; [exact Hun |].
  rewrite Forall_forall in *. intros e He. split; [| exact (Hdue e He)].
  simpl in Hp. apply (Permutation_in e (Permutation_sym Hp)).
  apply in_or_app. left. exact He.
Qed.

Lemma run_wakes_only_due_requests_witness :
  sleeping_threads_list idle_state = []
  /\ in_int64 (ticks idle_state)
  /\ in_int64 (ticks idle_state + count_ticks sample_run)
  /\ exists s woken,
       run sample_run idle_state = Done tt s
       /\ unblocked (trace s) = unblocked (trace idle_state) ++ map t woken
       /\ Forall (fun e => In e (requests sample_run idle_state)
                           /\ wake_up_time e <= ticks s) woken.
Proof.
  assert (H2 : in_int64 (ticks idle_state))
    by (unfold in_int64, INT64_MIN, INT64_MAX; simpl; lia).
  assert (H3 : in_int64 (ticks idle_state + count_ticks sample_run))
    by (unfold in_int64, INT64_MIN, INT64_MAX; simpl; lia).
  split; [reflexivity |]. split; [exact H2 |]. split; [exact H3 |].
  assert (Hrun : exists s, run sample_run idle_state = Done tt s)
    by (eexists; vm_compute; reflexivity).
  destruct Hrun as [s Hrun].
  destruct (run_wakes_only_due_requests sample_run idle_state s eq_refl H2 H3 Hrun)
    as [woken [Hun Hdue]].
  exists s, woken. auto.
Defined.

(** ** Non-positive durations *)

Lemma quot_nonpos (x d : Z) :
  x <= 0 -> 0 < d -> Z.quot x d = - ((- x) / d) /\ Z.quot x d <= 0.
Proof.
  intros Hx Hd.
  assert (E : Z.quot x d = - ((- x) / d)).
  { replace x with (- (- x)) at 1 by lia.
    rewrite Z.quot_opp_l by lia. rewrite Z.quot_div_nonneg by lia. reflexivity. }
  split; [exact E |].
  rewrite E. pose proof (Z.div_pos (- x) d ltac:(lia) Hd). lia.
Qed.

(** X14: a sleep of zero or negative duration never blocks. With interrupts
    on, a supported [TIMER_FREQ], [loops_per_tick] an unsigned 32-bit value
    and a duration not below [- 2 ^ 31], each of [timer_msleep],
    [timer_usleep] and [timer_nsleep] returns after a busy wait of zero
    turns: the queue, the lock and the scheduler are not touched. *)
Theorem nonpositive_duration_returns_at_once
        (F : Z) (wrapper : Z -> M unit) (denom num : Z) (s : kstate) :
  In (wrapper, denom) (sleep_wrappers F) ->
  timer_freq_supported F ->
  intr s = INTR_ON ->
  0 <= loops_per_tick s < 2 ^ 32 ->
  - 2 ^ 31 <= num <= 0 ->
  wrapper num s = Done tt (emit (EvBusyWait 0) s).
Proof.
  intros Hin [HF1 HF2] Hon Hlpt Hnum.
  assert (Hw : wrapper = (fun n => real_time_sleep F n denom)
               /\ 0 < denom /\ Z.rem denom 1000 = 0 /\ 0 < Z.quot denom 1000).
  { simpl in Hin.
    destruct Hin as [H | [H | [H | []]]]; inversion H; subst;
      (split; [reflexivity | split; [lia | split; reflexivity]]). }
  destruct Hw as [-> [Hd [Hrem Hd']]].
  assert (Hx : in_int64 (num * F))
    by (unfold in_int64, INT64_MIN, INT64_MAX; nia).
  rewrite (real_time_sleep_routes F num denom s Hon).
  rewrite (real_time_ticks_quot F num denom Hx Hd).
  destruct (quot_nonpos (num * F) denom ltac:(nia) Hd) as [_ Hticks].
  destruct (Z.quot (num * F) denom >? 0) eqn:E;
    [rewrite Z.gtb_ltb in E; apply Z.ltb_lt in E; lia |].
  rewrite (real_time_delay_checked F num denom s Hrem).
  set (x := loops_per_tick s * num).
  assert (Hxr : in_int64 x /\ x <= 0)
    by (unfold x, in_int64, INT64_MIN, INT64_MAX; split; nia).
  destruct Hxr as [Hxr Hxneg].
  destruct (quot_nonpos x 1000 Hxneg ltac:(lia)) as [Eq1 Hq1].
  assert (Hp : 0 <= (- x) / 1000 /\ 1000 * ((- x) / 1000) <= - x).
  { split; [apply Z.div_pos; lia | apply Z.mul_div_le; lia]. }
  assert (H1 : mul64 (loops_per_tick s) num = x) by (apply wrap64_id; exact Hxr).
  assert (H2 : div64 x 1000 = Z.quot x 1000)
    by (apply wrap64_id; apply quot_in_int64; [exact Hxr | lia]).
  assert (Hyr : in_int64 (Z.quot x 1000 * F) /\ Z.quot x 1000 * F <= 0).
  { rewrite Eq1. unfold in_int64, INT64_MIN, INT64_MAX in *. split; nia. }
  destruct Hyr as [Hyr Hyneg].
  assert (H3 : mul64 (Z.quot x 1000) F = Z.quot x 1000 * F)
    by (apply wrap64_id; exact Hyr).
  destruct (quot_nonpos (Z.quot x 1000 * F) (Z.quot denom 1000) Hyneg Hd')
    as [_ Harg].
  assert (H4 : in_int64 (Z.quot (Z.quot x 1000 * F) (Z.quot denom 1000)))
    by (apply quot_in_int64; assumption).
  unfold busy_wait. rewrite H1, H2, H3. unfold div64 at 1.
  rewrite (wrap64_id _ H4), (busy_wait_from_count _ 0 H4). simpl.
  replace (Z.to_nat (Z.quot (Z.quot x 1000 * F) (Z.quot denom 1000)))
    with 0%nat by lia.
  reflexivity.
Qed.

Lemma nonpositive_duration_returns_at_once_witness :
  In (timer_msleep 100, 1000) (sleep_wrappers 100)
  /\ timer_freq_supported 100
  /\ intr idle_state = INTR_ON
  /\ timer_msleep 100 (-5) idle_state = Done tt (emit (EvBusyWait 0) idle_state).
Proof.
  assert (H1 : In (timer_msleep 100, 1000) (sleep_wrappers 100))
    by (left; reflexivity).
  assert (H2 : timer_freq_supported 100) by (unfold timer_freq_supported; lia).
  split; [exact H1 |]. split; [exact H2 |]. split; [reflexivity |].
  apply (nonpositive_duration_returns_at_once 100 (timer_msleep 100) 1000 (-5)
           idle_state H1 H2 eq_refl); simpl; lia.
Defined.

(** ** What no execution does *)

Lemma held_after_app (held : bool) (a b : list event) :
  held_after held (a ++ b) = held_after (held_after held a) b.
Proof.
  revert held. induction a as [| e a IH]; intros held; [reflexivity |].
  destruct e; simpl; apply IH.
Qed.

Lemma switches_app_held (held : bool) (a b : list event) :
  switches held (a ++ b) = switches held a ++ switches (held_after held a) b.
Proof.
  revert held. induction a as [| e a IH]; intros held; [reflexivity |].
  destruct e; simpl; rewrite ?IH; reflexivity.
Qed.

Lemma dispatcher_idle_refl (s : kstate) : dispatcher_idle s s.
Proof.
  intros Hoff. split; [exact Hoff |]. split; [auto |].
  exists []. rewrite app_nil_r. repeat split. constructor.
Qed.

Lemma dispatcher_idle_trans (a b c : kstate) :
  dispatcher_idle a b -> dispatcher_idle b c -> dispatcher_idle a c.
Proof.
  intros Hab Hbc Ha.
  destruct (Hab Ha) as [Hb [Hq1 [evs1 [Ht1 [Hu1 [Hs1 Hh1]]]]]].
  destruct (Hbc Hb) as [Hc [Hq2 [evs2 [Ht2 [Hu2 [Hs2 Hh2]]]]]].
  split; [exact Hc |]. split; [auto |].
  exists (evs1 ++ evs2). split; [rewrite Ht2, Ht1; symmetry; apply app_assoc |].
  split; [rewrite unblocked_app, Hu1, Hu2; reflexivity |].
  split.
  - rewrite switches_app_held. apply Forall_app. split; [exact Hs1 |].
    rewrite Hh1. exact Hs2.
  - rewrite held_after_app, Hh1. exact Hh2.
Qed.

Lemma idle_bind {A B} (m : M A) (k : A -> M B) :
  keeps dispatcher_idle m -> (forall a, keeps dispatcher_idle (k a)) ->
  keeps dispatcher_idle (bind m k).
Proof.
  intros Hm Hk s. specialize (Hm s). unfold bind.
  destruct (m s) as [a s1 | s1 | s1 | s1]; simpl in *; try exact Hm.
  exact (dispatcher_idle_trans s s1 _ Hm (Hk a s1)).
Qed.

(** A step that makes at most one call, which is neither [thread_block]
    nor [thread_unblock], and leaves flag and queue alone. *)
Lemma dispatcher_idle_quiet (s s' : kstate) (evs : list event) :
  wakeup_needed s' = wakeup_needed s ->
  sleeping_threads_list s' = sleeping_threads_list s ->
  trace s' = trace s ++ evs ->
  unblocked evs = [] ->
  switches (lock_held s) evs = [] ->
  held_after (lock_held s) evs = lock_held s' ->
  dispatcher_idle s s'.
Proof.
  intros Hf Hq Ht Hu Hs Hh Hoff.
  split; [congruence |]. split; [intros e; rewrite Hq; auto |].
  exists evs. rewrite Hs. repeat split; auto.
Qed.

Lemma idle_ret {A} (a : A) : keeps dispatcher_idle (ret a).
Proof. intros s. apply dispatcher_idle_refl. Qed.

Lemma idle_get {A} (proj : kstate -> A) : keeps dispatcher_idle (get proj).
Proof. intros s. apply dispatcher_idle_refl. Qed.

Lemma idle_panic {A} : keeps dispatcher_idle (@panic A).
Proof. intros s. apply dispatcher_idle_refl. Qed.

Lemma idle_ASSERT (c : bool) : keeps dispatcher_idle (ASSERT c).
Proof. destruct c; [apply idle_ret | apply idle_panic]. Qed.

Lemma idle_modify (f : kstate -> kstate) :
  (forall s, wakeup_needed (f s) = wakeup_needed s
             /\ sleeping_threads_list (f s) = sleeping_threads_list s
             /\ trace (f s) = trace s
             /\ sleeper_lock (f s) = sleeper_lock s) ->
  keeps dispatcher_idle (modify f).
Proof.
  intros Hf s. destruct (Hf s) as [H1 [H2 [H3 H4]]]. simpl.
  apply (dispatcher_idle_quiet s (f s) []); auto.
  - now rewrite app_nil_r.
  - unfold lock_held. now rewrite H4.
Qed.

Lemma idle_lock_acquire : keeps dispatcher_idle lock_acquire.
Proof.
  intros s. unfold lock_acquire.
  destruct (sleeper_lock s) eqn:E; [apply dispatcher_idle_refl |].
  simpl. now apply (dispatcher_idle_quiet s _ [EvLockAcquire (running s)]).
Qed.

Lemma idle_lock_release : keeps dispatcher_idle lock_release.
Proof.
  intros s. unfold lock_release.
  destruct (sleeper_lock s) as [h |] eqn:E; [| apply dispatcher_idle_refl].
  destruct (Nat.eqb h (running s)); [| apply dispatcher_idle_refl].
  simpl. now apply (dispatcher_idle_quiet s _ [EvLockRelease h]).
Qed.

Lemma idle_malloc : keeps dispatcher_idle malloc.
Proof.
  intros s. unfold malloc.
  destruct (heap_free s); simpl;
    now apply (dispatcher_idle_quiet s _ [EvMalloc]).
Qed.

Lemma idle_busy_wait (loops : Z) : keeps dispatcher_idle (busy_wait loops).
Proof.
  intros s. simpl.
  now apply (dispatcher_idle_quiet s _ [EvBusyWait (fst (busy_wait_from loops 0))]).
Qed.

Lemma idle_thread_tick : keeps dispatcher_idle thread_tick.
Proof. intros s. simpl. now apply (dispatcher_idle_quiet s _ [EvThreadTick]). Qed.

Lemma idle_intr_set_level (l : intr_level) :
  keeps dispatcher_idle (intr_set_level l).
Proof.
  intros s. simpl. apply (dispatcher_idle_quiet s _ []); auto.
  now rewrite app_nil_r.
Qed.

Lemma idle_timer_ticks : keeps dispatcher_idle timer_ticks.
Proof. intros s. rewrite timer_ticks_reads. apply dispatcher_idle_refl. Qed.

(** [timer_sleep], by its four ways to end. *)
Lemma idle_timer_sleep (n : Z) : keeps dispatcher_idle (timer_sleep n).
Proof.
  intros s. destruct (Z_le_gt_dec n 0) as [Hle | Hgt].
  - rewrite timer_sleep_early_return by exact Hle. apply dispatcher_idle_refl.
  - assert (Hn : 0 < n) by lia.
    destruct (sleeper_lock s) as [h |] eqn:Hlock.
    + rewrite (timer_sleep_lock_held n s h Hn Hlock). apply dispatcher_idle_refl.
    + destruct (heap_free s) as [| k] eqn:Hheap.
      * rewrite (timer_sleep_no_block_left n s Hn Hlock Hheap). simpl.
        apply (dispatcher_idle_quiet s _ [EvLockAcquire (running s); EvMalloc]);
          auto; unfold lock_held; rewrite Hlock; reflexivity.
      * rewrite (timer_sleep_queues n s k Hn Hlock Hheap). simpl.
        intros Hoff. split; [exact Hoff |]. split.
        -- intros e He. cbn [sleeping_threads_list].
           rewrite sleep_enqueue_uniform.
           apply (Permutation_in e
                    (Permutation_sym
                       (list_insert_ordered_permutation
                          (sleeping_threads_list s)
                          (mk_sleeping_thread (running s) (add64 (ticks s) n))
                          compare_wake_up_time))).
           right. exact He.
        -- eexists. split; [reflexivity |].
           unfold lock_held. rewrite Hlock. simpl.
           repeat split. repeat constructor.
Qed.

(** Closes the goal for a [modify] that leaves flag, queue, trace and lock
    alone. *)
Ltac idle_frame := apply idle_modify; intros ?; repeat split; reflexivity.

Lemma idle_real_time_delay (F num denom : Z) :
  keeps dispatcher_idle (real_time_delay F num denom).
Proof.
  unfold real_time_delay.
  apply idle_bind; [apply idle_ASSERT | intros _].
  apply idle_bind; [apply idle_get | intros lpt].
  apply idle_busy_wait.
Qed.

Lemma idle_real_time_sleep (F num denom : Z) :
  keeps dispatcher_idle (real_time_sleep F num denom).
Proof.
  unfold real_time_sleep.
  apply idle_bind; [apply idle_get | intros level].
  apply idle_bind; [apply idle_ASSERT | intros _].
  destruct (real_time_ticks F num denom >? 0);
    [apply idle_timer_sleep | apply idle_real_time_delay].
Qed.

Lemma idle_timer_elapsed (then_ : Z) : keeps dispatcher_idle (timer_elapsed then_).
Proof.
  intros s. rewrite timer_elapsed_reads. apply dispatcher_idle_refl.
Qed.

(** With the flag down the wake-up block is skipped. *)
Lemma idle_wakeup_pass : keeps dispatcher_idle wakeup_pass.
Proof.
  intros s Hoff. rewrite (wakeup_pass_idle s Hoff).
  exact (dispatcher_idle_refl s Hoff).
Qed.

Lemma idle_timer_wakeup (F : Z) (fuel : nat) :
  keeps dispatcher_idle (timer_wakeup F fuel).
Proof.
  induction fuel as [| fuel IH]; cbn [timer_wakeup].
  - intros s. apply dispatcher_idle_refl.
  - apply idle_bind; [apply idle_wakeup_pass | intros _].
    apply idle_bind; [apply idle_intr_set_level | intros old_level].
    apply idle_bind; [apply idle_real_time_sleep | intros _].
    apply idle_bind; [apply idle_intr_set_level | intros _].
    exact IH.
Qed.

(** The last statement of the handler is the only one that would raise the
    flag, and it is never reached. *)
Lemma timer_interrupt_final (F : Z) (fuel : nat) (s : kstate) :
  final (timer_interrupt F fuel s) =
  final (timer_wakeup F fuel
           (emit EvThreadTick (set_ticks (add64 (ticks s) 1) s))).
Proof.
  rewrite timer_interrupt_head. unfold bind.
  pose proof (timer_wakeup_never_returns F fuel
                (emit EvThreadTick (set_ticks (add64 (ticks s) 1) s))) as Hnr.
  destruct (timer_wakeup F fuel _); simpl in *; [discriminate | | |];
    reflexivity.
Qed.

Lemma idle_timer_interrupt (F : Z) (fuel : nat) :
  keeps dispatcher_idle (timer_interrupt F fuel).
Proof.
  intros s. rewrite timer_interrupt_final.
  eapply dispatcher_idle_trans; [| apply idle_timer_wakeup].
  now apply (dispatcher_idle_quiet s _ [EvThreadTick]).
Qed.

Lemma idle_too_many_loops (arrives : nat -> Z -> bool) (n : nat) (loops : Z) :
  keeps dispatcher_idle (too_many_loops arrives n loops).
Proof.
  unfold too_many_loops.
  apply idle_bind; [idle_frame | intros _].
  apply idle_bind; [apply idle_get | intros start].
  apply idle_bind; [apply idle_busy_wait | intros _].
  apply idle_bind;
    [destruct (arrives n loops); [idle_frame | apply idle_ret] | intros _].
  apply idle_bind; [apply idle_get | intros now].
  apply idle_ret.
Qed.

Lemma idle_calibrate_search (arrives : nat -> Z -> bool) (fuel n : nat) :
  keeps dispatcher_idle (calibrate_search arrives fuel n).
Proof.
  revert n. induction fuel as [| fuel IH]; intros n; cbn [calibrate_search].
  - intros s. apply dispatcher_idle_refl.
  - apply idle_bind; [apply idle_get | intros lpt].
    apply idle_bind; [apply idle_too_many_loops | intros many].
    destruct many; [apply idle_ret |].
    apply idle_bind; [idle_frame | intros _].
    apply idle_bind; [apply idle_get | intros lpt'].
    apply idle_bind; [apply idle_ASSERT | intros _].
    apply IH.
Qed.

Lemma idle_calibrate_refine (arrives : nat -> Z -> bool) (fuel n : nat)
      (high_bit test_bit : Z) :
  keeps dispatcher_idle (calibrate_refine arrives fuel n high_bit test_bit).
Proof.
  revert n test_bit.
  induction fuel as [| fuel IH]; intros n test_bit; cbn [calibrate_refine].
  - intros s. apply dispatcher_idle_refl.
  - destruct (test_bit =? shru32 high_bit 10); [apply idle_ret |].
    apply idle_bind; [apply idle_get | intros lpt].
    apply idle_bind; [apply idle_too_many_loops | intros many].
    apply idle_bind;
      [destruct many; [apply idle_ret | idle_frame] | intros _].
    apply IH.
Qed.

Lemma idle_timer_calibrate (arrives : nat -> Z -> bool) (fuel : nat) :
  keeps dispatcher_idle (timer_calibrate arrives fuel).
Proof.
  unfold timer_calibrate.
  apply idle_bind; [apply idle_get | intros level].
  apply idle_bind; [apply idle_ASSERT | intros _].
  apply idle_bind; [idle_frame | intros _].
  apply idle_bind; [apply idle_calibrate_search | intros n].
  apply idle_bind; [apply idle_get | intros high_bit].
  apply idle_bind; [apply idle_calibrate_refine | intros _].
  apply idle_ret.
Qed.

Lemma dispatcher_idle_set_running (who : thread) (s : kstate) :
  dispatcher_idle s (set_running who s).
Proof.
  apply (dispatcher_idle_quiet s _ []); auto. now rewrite app_nil_r.
Qed.

Lemma perform_idle (F : Z) (c : call) (s : kstate) :
  dispatcher_idle s (perform F c s).
Proof.
  destruct c as [who n | who ms | who us | who ns | ms | us | ns | | then_
                 | arrives fuel | fuel | fuel | level]; cbn [perform].
  - exact (dispatcher_idle_trans _ _ _ (dispatcher_idle_set_running who s)
             (idle_timer_sleep n _)).
  - exact (dispatcher_idle_trans _ _ _ (dispatcher_idle_set_running who s)
             (idle_real_time_sleep F ms 1000 _)).
  - exact (dispatcher_idle_trans _ _ _ (dispatcher_idle_set_running who s)
             (idle_real_time_sleep F us (1000 * 1000) _)).
  - exact (dispatcher_idle_trans _ _ _ (dispatcher_idle_set_running who s)
             (idle_real_time_sleep F ns (1000 * 1000 * 1000) _)).
  - apply idle_real_time_delay.
  - apply idle_real_time_delay.
  - apply idle_real_time_delay.
  - apply idle_timer_ticks.
  - apply idle_timer_elapsed.
  - apply idle_timer_calibrate.
  - apply idle_timer_wakeup.
  - apply idle_timer_interrupt.
  - apply (dispatcher_idle_quiet s _ []); auto. now rewrite app_nil_r.
Qed.

Lemma execute_idle (F : Z) (cs : list call) (s : kstate) :
  dispatcher_idle s (execute F cs s).
Proof.
  revert s. induction cs as [| c cs IH]; intros s; cbn [execute].
  - apply dispatcher_idle_refl.
  - exact (dispatcher_idle_trans s _ _ (perform_idle F c s) (IH _)).
Qed.



(** C1 (fails on resumption): thread 7 calls [timer_sleep 1] at tick 0 and is
    queued for tick 1 and blocked. The next timer interrupt counts tick 1,
    the wake tick, and never returns; whatever [TIMER_FREQ] is, however long
    the handler is followed and whatever calls come after, the entry is
    still queued and no thread has been passed to [thread_unblock]. *)
Theorem sleeper_is_never_resumed (F : Z) (fuel : nat) (cs : list call) :
  exists s1,
    timer_sleep 1 fresh_state = Done tt s1
    /\ sleeping_threads_list s1 = [mk_sleeping_thread 7%nat 1]
    /\ trace s1 = [EvLockAcquire 7%nat; EvMalloc; EvLockRelease 7%nat;
                   EvThreadBlock 7%nat]
    /\ returns (timer_interrupt F fuel s1) = false
    /\ ticks (final (timer_interrupt F fuel s1)) = 1
    /\ In (mk_sleeping_thread 7%nat 1)
          (sleeping_threads_list (execute F (CallInterrupt fuel :: cs) s1))
    /\ unblocked (trace (execute F (CallInterrupt fuel :: cs) s1)) = [].
Proof.
  eexists. split; [vm_compute; reflexivity |].
  set (s1 := mk_kstate 0 0 false [mk_sleeping_thread 7%nat 1] None INTR_ON
                       7%nat 3%nat
                       [EvLockAcquire 7%nat; EvMalloc; EvLockRelease 7%nat;
                        EvThreadBlock 7%nat]).
  split; [reflexivity |]. split; [reflexivity |]. split; [| split].
  - rewrite timer_interrupt_head. unfold bind.
    pose proof (timer_wakeup_never_returns F fuel
                  (emit EvThreadTick (set_ticks (add64 (ticks s1) 1) s1))) as H.
    destruct (timer_wakeup F fuel _); simpl in *; congruence.
  - rewrite timer_interrupt_final.
    destruct (keeps_timer_wakeup F fuel
                (emit EvThreadTick (set_ticks (add64 (ticks s1) 1) s1)))
      as [Ht _].
    rewrite Ht. reflexivity.
  - destruct (execute_idle F (CallInterrupt fuel :: cs) s1 eq_refl)
      as [_ [Hq [evs [Ht [Hu _]]]]].
    split; [apply Hq; left; reflexivity |].
    rewrite Ht, unblocked_app, Hu. reflexivity.
Qed.

(** ** Durations in whole ticks *)

(** C7 (as stated, fails): the tick count is not rounded down for every
    duration. For -15 ms at [TIMER_FREQ = 100] the code computes
    [-1500 / 1000] in C, which is -1; rounded down it would be -2. *)
Lemma negative_duration_not_rounded_down :
  real_time_ticks 100 (-15) 1000 = -1
  /\ (-15 * 100) / 1000 = -2
  /\ real_time_ticks 100 (-15) 1000 <> (-15 * 100) / 1000.
Proof.
  split; [vm_compute; reflexivity |].
  split; [vm_compute; reflexivity |].
  vm_compute. discriminate.
Qed.

(** C7 (amended): with interrupts on and [num * TIMER_FREQ] an int64, each
    of [timer_msleep], [timer_usleep], [timer_nsleep] computes the tick
    count [num * TIMER_FREQ / denom] truncated toward zero, which is the
    quotient rounded down when the duration is not negative. A count of at
    least 1 is passed to [timer_sleep]. Otherwise the call does not suspend:
    it returns after a busy wait of
    [loops_per_tick * num / 1000 * TIMER_FREQ / (denom / 1000)] turns, each
    division truncated and the products int64 (no turn when that is not
    positive), and changes nothing else. *)
Theorem duration_sleep_truncates_and_routes
        (F : Z) (wrapper : Z -> M unit) (denom num : Z) (s : kstate) :
  In (wrapper, denom) (sleep_wrappers F) ->
  in_int64 (num * F) ->
  intr s = INTR_ON ->
  let whole_ticks := Z.quot (num * F) denom in
  real_time_ticks F num denom = whole_ticks
  /\ (0 <= num * F -> whole_ticks = num * F / denom)
  /\ (1 <= whole_ticks -> wrapper num s = timer_sleep whole_ticks s)
  /\ (whole_ticks < 1 ->
      in_int64 (loops_per_tick s * num) ->
      in_int64 (Z.quot (loops_per_tick s * num) 1000 * F) ->
      wrapper num s =
      Done tt
        (emit (EvBusyWait
                 (Z.to_nat (Z.quot (Z.quot (loops_per_tick s * num) 1000 * F)
                                   (Z.quot denom 1000))))
              s)).
Proof.
  intros Hin Hx Hon whole_ticks.
  assert (Hw : wrapper = (fun n => real_time_sleep F n denom)
               /\ 0 < denom /\ Z.rem denom 1000 = 0 /\ 0 < Z.quot denom 1000).
  { simpl in Hin.
    destruct Hin as [H | [H | [H | []]]]; inversion H; subst;
      (split; [reflexivity | split; [lia | split; reflexivity]]). }
  destruct Hw as [-> [Hd [Hrem Hd']]].
  pose proof (real_time_ticks_quot F num denom Hx Hd) as Hq.
  pose proof (real_time_sleep_routes F num denom s Hon) as Hroute.
  fold whole_ticks in Hq. rewrite Hq in Hroute.
  split; [exact Hq |]. split; [| split].
  - intros Hpos. apply Z.quot_div_nonneg; lia.
  - intros H1. rewrite Hroute.
    destruct (whole_ticks >? 0) eqn:E; [reflexivity |].
    rewrite Z.gtb_ltb, Z.ltb_ge in E. lia.
  - intros H0 Hp1 Hp2. rewrite Hroute.
    destruct (whole_ticks >? 0) eqn:E;
      [rewrite Z.gtb_ltb in E; apply Z.ltb_lt in E; lia |].
    rewrite (real_time_delay_checked F num denom s Hrem).
    assert (H1 : mul64 (loops_per_tick s) num = loops_per_tick s * num)
      by (apply wrap64_id; exact Hp1).
    assert (H2 : div64 (loops_per_tick s * num) 1000
                 = Z.quot (loops_per_tick s * num) 1000)
      by (apply wrap64_id; apply quot_in_int64; [exact Hp1 | lia]).
    assert (H3 : mul64 (Z.quot (loops_per_tick s * num) 1000) F
                 = Z.quot (loops_per_tick s * num) 1000 * F)
      by (apply wrap64_id; exact Hp2).
    assert (H4 : in_int64 (Z.quot (Z.quot (loops_per_tick s * num) 1000 * F)
                                  (Z.quot denom 1000)))
      by (apply quot_in_int64; assumption).
    unfold busy_wait. rewrite H1, H2, H3. unfold div64 at 1.
    rewrite (wrap64_id _ H4), (busy_wait_from_count _ 0 H4). reflexivity.
Qed.

Lemma duration_sleep_truncates_and_routes_witness :
  In (timer_msleep 100, 1000) (sleep_wrappers 100)
  /\ in_int64 (3 * 100)
  /\ intr idle_state = INTR_ON
  /\ real_time_ticks 100 3 1000 = 0
  /\ timer_msleep 100 3 idle_state = Done tt (emit (EvBusyWait 300) idle_state).
Proof.
  assert (H1 : In (timer_msleep 100, 1000) (sleep_wrappers 100))
    by (left; reflexivity).
  assert (H2 : in_int64 (3 * 100))
    by (unfold in_int64, INT64_MIN, INT64_MAX; lia).
  assert (H3 : intr idle_state = INTR_ON) by reflexivity.
  split; [exact H1 |]. split; [exact H2 |]. split; [exact H3 |].
  destruct (duration_sleep_truncates_and_routes
              100 (timer_msleep 100) 1000 3 idle_state H1 H2 H3)
    as [Hticks [_ [_ Hspin]]].
  split; [exact Hticks |].
  apply Hspin;
    [ vm_compute; reflexivity
    | unfold in_int64, INT64_MIN, INT64_MAX; simpl; lia
    | vm_compute; split; discriminate ].
Defined.

(** ** The result of calibration *)

(** X12: what [timer_calibrate] leaves when it returns. With interrupts off
    it stops at its ASSERT before it has touched [loops_per_tick]; and
    whenever it returns, [loops_per_tick] lies between the leading power of
    two the doubling loop found, [2 ^ 10] to [2 ^ 31], and twice that
    power: the doubling never wraps to a smaller value unnoticed, and the
    result fits an unsigned 32-bit word. *)
Theorem timer_calibrate_result_in_bounds (arrives : nat -> Z -> bool)
        (s : kstate) :
  (intr s = INTR_OFF -> timer_calibrate arrives 32 s = Fatal s)
  /\ (forall s', timer_calibrate arrives 32 s = Done tt s' ->
        intr s = INTR_ON
        /\ exists k, 10 <= k <= 31
             /\ 2 ^ k <= loops_per_tick s' < 2 ^ (k + 1)).
Proof.
  destruct (intr s) eqn:Hintr.
  - assert (Hoff : timer_calibrate arrives 32 s = Fatal s).
    { unfold timer_calibrate. unfold bind at 1.
      unfold intr_get_level, get at 1. rewrite Hintr. reflexivity. }
    rewrite Hoff. split; [reflexivity | discriminate].
  - rewrite (timer_calibrate_with_interrupts_on arrives 32 s Hintr).
    pose proof (calibrate_loops_end arrives (set_loops_per_tick (2 ^ 10) s) eq_refl)
      as Hend.
    destruct ((n <- calibrate_search arrives 32 O ;;
               high_bit <- get loops_per_tick ;;
               calibrate_refine arrives 32 n high_bit (shru32 high_bit 1) ;;
               ret tt) (set_loops_per_tick (2 ^ 10) s))
      as [[] s1 | s1 | s1 | s1]; try contradiction.
    + split; [discriminate |].
      intros s' H. injection H as Hs'. rewrite <- Hs'.
      split; [reflexivity | exact Hend].
    + split; discriminate.
Qed.

Lemma timer_calibrate_result_in_bounds_witness :
  exists s',
    timer_calibrate first_overruns 32 idle_state = Done tt s'
    /\ loops_per_tick s' = 2046
    /\ exists k, 10 <= k <= 31 /\ 2 ^ k <= loops_per_tick s' < 2 ^ (k + 1).
Proof.
  eexists.
  assert (Hrun : timer_calibrate first_overruns 32 idle_state = Done tt _)
    by (vm_compute; reflexivity).
  split; [exact Hrun |]. split; [reflexivity |].
  exact (proj2 (proj2 (timer_calibrate_result_in_bounds first_overruns idle_state)
                  _ Hrun)).
Defined.
